(** * Skater: model-agnostic feature importance

    A shallow embedding of
    [skater/core/global_interpretation/feature_importance.py]
    ([FeatureImportance] and its static helpers) together with the
    theorems that settle the properties stated about it.

    Numbers.  The Python code computes with numpy float64 values.  The
    embedding keeps the IEEE special values that the code can produce
    by dividing by zero (NaN and the two infinities) and computes
    exactly, over the rationals, on finite values: rounding and
    overflow are not modelled.

    Effects.  The orchestrator [feature_importance] talks to external
    collaborators (the dataset, the model, the worker pool, the logger,
    the progress bar).  They are records of functions; a run returns
    the list of collaborator events it caused together with either a
    value or the exception raised. *)

From Stdlib Require Import String.
From Stdlib Require Import QArith Qcanon Qcabs ZArith Lia Bool List Permutation
  Sorted.
Import ListNotations.
Open Scope string_scope.
Open Scope list_scope.

Set Implicit Arguments.

(* ================================================================== *)
(** * Numbers: float64 without rounding *)
(* ================================================================== *)

Module Num.

Local Open Scope Qc_scope.

Inductive num : Type :=
| Fin (q : Qc)
| PInf
| NInf
| NaN.

Definition zero : num := Fin (Q2Qc 0).
Definition one : num := Fin (Q2Qc 1).
Definition of_Z (z : Z) : num := Fin (Q2Qc (inject_Z z)).
Definition of_nat (n : nat) : num := of_Z (Z.of_nat n).
(** [frac a b] is the literal a/b. *)
Definition frac (a : Z) (b : positive) : num := Fin (Q2Qc (a # b)).

Definition Qc_ltb (a b : Qc) : bool :=
  match a ?= b with Lt => true | _ => false end.

Definition nopp (a : num) : num :=
  match a with
  | Fin q => Fin (- q)
  | PInf => NInf
  | NInf => PInf
  | NaN => NaN
  end.

Definition nadd (a b : num) : num :=
  match a, b with
  | NaN, _ | _, NaN => NaN
  | PInf, NInf | NInf, PInf => NaN
  | PInf, _ | _, PInf => PInf
  | NInf, _ | _, NInf => NInf
  | Fin x, Fin y => Fin (x + y)
  end.

Definition nsub (a b : num) : num := nadd a (nopp b).

(** Sign of a number that is not NaN, as a comparison with zero. *)
Definition sign (a : num) : option comparison :=
  match a with
  | Fin q => Some (q ?= Q2Qc 0)
  | PInf => Some Gt
  | NInf => Some Lt
  | NaN => None
  end.

Definition inf_of_sign (c : comparison) : num :=
  match c with Gt => PInf | Lt => NInf | Eq => NaN end.

Definition sign_mul (c d : comparison) : comparison :=
  match c, d with
  | Eq, _ | _, Eq => Eq
  | Gt, Gt | Lt, Lt => Gt
  | _, _ => Lt
  end.

Definition nmul (a b : num) : num :=
  match a, b with
  | Fin x, Fin y => Fin (x * y)
  | _, _ =>
      match sign a, sign b with
      | Some c, Some d => inf_of_sign (sign_mul c d)
      | _, _ => NaN
      end
  end.

(** Division as numpy performs it: a zero divisor gives an infinity of
    the sign of the dividend, and 0/0 gives NaN (a warning, no
    exception).  The zero divisors of this program are differences
    [x - x], which are +0 in IEEE arithmetic. *)
Definition ndiv (a b : num) : num :=
  match a, b with
  | NaN, _ | _, NaN => NaN
  | Fin x, Fin y =>
      if Qc_eq_bool y (Q2Qc 0) then inf_of_sign (x ?= Q2Qc 0)
      else Fin (x / y)
  | Fin _, _ => zero
  | _, Fin y =>
      match a, Qc_ltb y (Q2Qc 0) with
      | PInf, false | NInf, true => PInf
      | _, _ => NInf
      end
  | _, _ => NaN
  end.

Definition nabs (a : num) : num :=
  match a with
  | Fin q => Fin (Qcabs q)
  | PInf | NInf => PInf
  | NaN => NaN
  end.

(** Comparison; [None] when a NaN is involved (every ordered
    comparison with NaN is false). *)
Definition ncompare (a b : num) : option comparison :=
  match a, b with
  | NaN, _ | _, NaN => None
  | Fin x, Fin y => Some (x ?= y)
  | PInf, PInf | NInf, NInf => Some Eq
  | PInf, _ | _, NInf => Some Gt
  | _, PInf | NInf, _ => Some Lt
  end.

Definition ngtb (a b : num) : bool :=
  match ncompare a b with Some Gt => true | _ => false end.
Definition nltb (a b : num) : bool :=
  match ncompare a b with Some Lt => true | _ => false end.
Definition neqb (a b : num) : bool :=
  match ncompare a b with Some Eq => true | _ => false end.

(** Left-to-right sum starting from 0 ([np.sum], Python's [sum]). *)
Definition nsum (l : list num) : num := fold_left nadd l zero.


(** Never below zero: finite and at least zero, or +infinity, or NaN. *)
Definition not_negative (a : num) : Prop :=
  match a with
  | Fin q => Q2Qc 0 <= q
  | NInf => False
  | PInf | NaN => True
  end.

Definition is_finite (a : num) : Prop :=
  match a with Fin _ => True | _ => False end.

End Num.
Export Num.

(* ================================================================== *)
(** * Exceptions and results *)
(* ================================================================== *)

Inductive exn : Type :=
| AssertionError (msg : string)
| FeatureImportanceError (msg : string)
| KeyError (msg : string)
| ValueError (msg : string)
| OtherError (msg : string).   (* whatever a collaborator raises *)

Inductive result (A : Type) : Type :=
| Ok (a : A)
| Raise (e : exn).
Arguments Ok {A} a.
Arguments Raise {A} e.

Definition rbind {A B} (r : result A) (k : A -> result B) : result B :=
  match r with
  | Ok a => k a
  | Raise e => Raise e
  end.

Declare Scope result_scope.
Delimit Scope result_scope with result.
Notation "x <- r ;; k" := (rbind r (fun x => k))
  (at level 61, r at next level, right associativity) : result_scope.

(* ================================================================== *)
(** * Arrays *)
(* ================================================================== *)

(** A prediction array is one-dimensional (one number per row) or
    two-dimensional (one vector per row, e.g. class probabilities). *)
Inductive ndarray : Type :=
| Arr1 (v : list num)
| Arr2 (m : list (list num)).

Definition shape_error : exn :=
  ValueError "operands could not be broadcast together".

(** Elementwise binary operation on vectors of the same length.  The
    model covers operands of equal shape; for other shapes numpy either
    broadcasts or raises, and the model raises. *)
Fixpoint zip_with (f : num -> num -> num) (a b : list num) : result (list num) :=
  match a, b with
  | [], [] => Ok []
  | x :: a', y :: b' =>
      match zip_with f a' b' with
      | Ok l => Ok (f x y :: l)
      | Raise e => Raise e
      end
  | _, _ => Raise shape_error
  end.

Fixpoint zip_with2 (f : num -> num -> num) (a b : list (list num))
  : result (list (list num)) :=
  match a, b with
  | [], [] => Ok []
  | r :: a', s :: b' =>
      match zip_with f r s, zip_with2 f a' b' with
      | Ok l, Ok m => Ok (l :: m)
      | Raise e, _ => Raise e
      | _, Raise e => Raise e
      end
  | _, _ => Raise shape_error
  end.

(** [abs(new_predictions - original_predictions)] *)
Definition abs_diff (a b : ndarray) : result ndarray :=
  match a, b with
  | Arr1 u, Arr1 v =>
      match zip_with (fun x y => nabs (nsub x y)) u v with
      | Ok l => Ok (Arr1 l)
      | Raise e => Raise e
      end
  | Arr2 m, Arr2 n =>
      match zip_with2 (fun x y => nabs (nsub x y)) m n with
      | Ok l => Ok (Arr2 l)
      | Raise e => Raise e
      end
  | _, _ => Raise shape_error
  end.

(** [a[:, np.newaxis]] on a one-dimensional array. *)
Definition newaxis (v : list num) : list (list num) := map (fun x => [x]) v.

(** [np.sum(a, axis=1)] *)
Definition sum_axis1 (m : list (list num)) : list num := map nsum m.

(** [np.mean]: the sum of all the elements over their number; NaN for
    an empty array. *)
Definition mean (l : list num) : num := ndiv (nsum l) (of_nat (length l)).

Definition np_mean (a : ndarray) : num :=
  match a with
  | Arr1 v => mean v
  | Arr2 m => mean (concat m)
  end.

(** Python's builtin [max] and [min] over a sequence: keep the first
    element until a strictly larger (smaller) one is met; [ValueError]
    on an empty sequence. *)
Definition py_max2 (a b : num) : num := if ngtb b a then b else a.
Definition py_min2 (a b : num) : num := if nltb b a then b else a.

Definition py_max (l : list num) : result num :=
  match l with
  | [] => Raise (ValueError "max() arg is an empty sequence")
  | x :: l' => Ok (fold_left py_max2 l' x)
  end.

Definition py_min (l : list num) : result num :=
  match l with
  | [] => Raise (ValueError "min() arg is an empty sequence")
  | x :: l' => Ok (fold_left py_min2 l' x)
  end.

(** [perturbed_x.reshape(original_x.shape)] for a one-dimensional
    [original_x]: the same elements, provided there are as many. *)
Definition reshape_like (original_x perturbed_x : list num) : result (list num) :=
  if Nat.eqb (length perturbed_x) (length original_x) then Ok perturbed_x
  else Raise (ValueError "cannot reshape array").

(** [np.ones(n)] *)
Definition ones (n : nat) : list num := repeat one n.

(* ================================================================== *)
(** * Collaborators and runs *)
(* ================================================================== *)

Definition fid : Type := string.
Definition Data : Type := list (list num).

(** An importance mapping: a Python dict in insertion order, and the
    pandas Series built from it. *)
Definition dict : Type := list (fid * num).

Inductive strategy : Type := random_choice | uniform_over_similarity_ranks.

(** What a run does to the outside world, in order. *)
Inductive event : Type :=
| EvGenerateSample (n_samples : Z)     (* data_set.generate_sample(...) *)
| EvPredict (inputs : Data)            (* model_instance.predict(inputs) *)
| EvPoolCreate (processes : option Z)  (* Pool(n_jobs) *)
| EvWarn (msg : string)                (* logger.warn *)
| EvDebug (importances : dict)         (* logger.debug *)
| EvProgressBar (n_iter : nat)         (* ProgressBar(n_iter, ...) *)
| EvPoolMap (lazy : bool)              (* executor.imap / executor.map called *)
| EvLocalTask (feature_id : fid)       (* a task run in the current process *)
| EvAnimate                            (* p.animate() *)
| EvPoolClose
| EvPoolJoin
| EvPoolTerminate
| EvNormalize.                         (* divide_zerosafe(...) *)

(** A run: the events so far and how it ended. *)
Definition M (A : Type) : Type := (list event * result A)%type.

Definition ret {A} (a : A) : M A := ([], Ok a).
Definition raise {A} (e : exn) : M A := ([], Raise e).
Definition emit (ev : event) : M unit := ([ev], Ok tt).
Definition lift {A} (r : result A) : M A := ([], r).

Definition bind {A B} (m : M A) (k : A -> M B) : M B :=
  match m with
  | (t, Ok a) => let (t', r) := k a in (t ++ t', r)
  | (t, Raise e) => (t, Raise e)
  end.

Declare Scope run_scope.
Delimit Scope run_scope with run.
Notation "x <- m ;; k" := (bind m (fun x => k))
  (at level 61, m at next level, right associativity) : run_scope.
Notation "m ;; k" := (bind m (fun _ => k))
  (at level 61, right associativity) : run_scope.

(** [try: body / except: handler / finally: final], with a bare
    [except] (every exception is caught and dropped). *)
Definition try_except_finally {A} (body handler : M A) (final : M unit) : M A :=
  let attempt :=
    match body with
    | (t, Ok a) => (t, Ok a)
    | (t, Raise _) => let (t', r) := handler in (t ++ t', r)
    end in
  match attempt, final with
  | (t, r), (t', Ok _) => (t ++ t', r)
  | (t, _), (t', Raise e) => (t ++ t', Raise e)
  end.

Inductive scorer_type : Type := increasing | decreasing.

Definition scorer_type_eqb (a b : scorer_type) : bool :=
  match a, b with
  | increasing, increasing | decreasing, decreasing => true
  | _, _ => false
  end.

(** A scorer: a callable [(labels, predictions, sample_weight=None)]
    with a [type] attribute. *)
Record Scorer : Type := {
  score : option ndarray -> ndarray -> option (list num) -> result num;
  stype : scorer_type
}.

(** [self.data_set] *)
Record DataSet : Type := {
  n_rows : nat;
  data : Data;
  feature_ids : list fid;
  feature_info : fid -> option bool;          (* feature_info[f]['numeric'] *)
  generate_sample : Z -> result Data          (* strategy='random-choice' *)
}.

(** The [DataManager] class, as the per-feature task uses it on its
    working copy. *)
Record DataManagerCls : Type := {
  dm_n_rows : Data -> nat;
  dm_getitem : Data -> list fid -> fid -> result (list num);
  dm_setitem : Data -> list fid -> fid -> list num -> result Data;
  generate_column_sample :
    Data -> list fid -> fid -> nat -> strategy -> result (list num)
}.

(** [model_instance] *)
Record Model : Type := {
  target_names : list string;
  predict : Data -> result ndarray;
  _get_static_predictor : Data -> result ndarray;
  scorers_default : Scorer
}.

(** The [multiprocessing] pool: whether [Pool(n)] can be built, and
    whether the pool breaks on its own while it delivers results
    ([Some (k, e)]: exception [e] in place of result number [k]). *)
Record PoolEnv : Type := {
  Pool : option Z -> result unit;
  pool_fault : option (nat * exn)
}.

(** [self]: the interpretation context. *)
Record Interpretation : Type := {
  data_set : DataSet;
  training_labels : option ndarray;
  DataManager : DataManagerCls;
  multiprocessing : PoolEnv
}.

(* ================================================================== *)
(** * The importance estimator *)
(* ================================================================== *)

Module FeatureImportance.

Local Open Scope result_scope.

(** [importance_scaler(original_x, perturbed_x)], lines 376-384. *)
Definition importance_scaler (original_x perturbed_x : list num)
  : result (list num) :=
  perturbed_x <- reshape_like original_x perturbed_x ;;
  mx <- py_max original_x ;;
  mn <- py_min original_x ;;
  scales <- zip_with (fun p o => ndiv (nabs (nsub p o)) (nsub mx mn))
                     perturbed_x original_x ;;
  (* [sum(scales == 0)]: the number of entries equal to zero, truthy
     when it is not 0 *)
  if negb (Nat.eqb (length (filter (fun s => neqb s zero) scales)) 0)
  then Ok (ones (length perturbed_x))
  else Ok scales.

(** [_compute_importance_via_output_variance], lines 344-357. *)
Definition _compute_importance_via_output_variance
  (new_predictions original_predictions : ndarray)
  (original_x perturbed_x : list num) (scaled : bool) : result num :=
  changes_in_predictions <- abs_diff new_predictions original_predictions ;;
  let changes_in_predictions :=
    match changes_in_predictions with
    | Arr1 v => newaxis v
    | Arr2 m => m
    end in
  if scaled then
    scales <- importance_scaler original_x perturbed_x ;;
    changes_in_predictions <-
      zip_with nmul (sum_axis1 changes_in_predictions) scales ;;
    Ok (np_mean (Arr1 changes_in_predictions))
  else
    Ok (np_mean (Arr2 changes_in_predictions)).

(** [_compute_importance_via_conditional_permutation], lines 360-373. *)
Definition _compute_importance_via_conditional_permutation
  (new_predictions original_predictions : ndarray)
  (training_labels : option ndarray)
  (original_x perturbed_x : list num) (scorer : Scorer) (scaled : bool)
  : result num :=
  sample_weight <-
    (if scaled then
       w <- importance_scaler original_x perturbed_x ;; Ok (Some w)
     else Ok None) ;;
  score1 <- score scorer training_labels new_predictions sample_weight ;;
  score2 <- score scorer training_labels original_predictions sample_weight ;;
  let multiple :=
    if scorer_type_eqb (stype scorer) increasing then of_Z 1 else of_Z (-1) in
  Ok (nabs (py_max2 (nmul (nsub score2 score1) multiple) (of_Z 0))).

(** [compute_importance], lines 321-342. *)
Definition compute_importance
  (new_predictions original_predictions : ndarray)
  (original_x perturbed_x : list num) (training_labels : option ndarray)
  (method : string) (scaled : bool) (scorer : Scorer) : result num :=
  if String.eqb method "output-variance" then
    _compute_importance_via_output_variance
      new_predictions original_predictions original_x perturbed_x scaled
  else if String.eqb method "conditional-permutation" then
    _compute_importance_via_conditional_permutation
      new_predictions original_predictions training_labels
      original_x perturbed_x scorer scaled
  else
    Raise (KeyError
      (String.append "Unrecongized method for computing feature_importance: "
                     method)).

(** [compute_feature_importance], lines 254-318: the task run for one
    feature.  It returns the single-entry dict [{feature_id: importance}]. *)
Definition compute_feature_importance (DataManager : DataManagerCls)
  (feature_id : fid) (input_data : Data)
  (estimator_fn : Data -> result ndarray) (original_predictions : ndarray)
  (feature_info : fid -> option bool) (feature_names : list fid)
  (training_labels : option ndarray) (method : string) (scaled : bool)
  (scorer : Scorer) : result dict :=
  (* DataManager(input_data.copy(), feature_names=feature_names) *)
  let copy_of_data_set := input_data in
  let n := dm_n_rows DataManager copy_of_data_set in
  original_values <-
    dm_getitem DataManager copy_of_data_set feature_names feature_id ;;
  numeric <- match feature_info feature_id with
             | Some b => Ok b
             | None => Raise (KeyError feature_id)
             end ;;
  samples <-
    generate_column_sample DataManager copy_of_data_set feature_names
      feature_id n
      (if numeric : bool then uniform_over_similarity_ranks else random_choice) ;;
  copy_of_data_set <-
    dm_setitem DataManager copy_of_data_set feature_names feature_id samples ;;
  new_predictions <- estimator_fn copy_of_data_set ;;
  importance <-
    compute_importance new_predictions original_predictions
      original_values samples training_labels method scaled scorer ;;
  Ok [(feature_id, importance)].

Local Open Scope run_scope.

(** ** Pieces of [feature_importance] *)

Definition newline : string := String (Ascii.ascii_of_nat 10) EmptyString.

(** [repr] of a list of strings, for the assertion message. *)
Definition repr_list (l : list string) : string :=
  String.append "["
    (String.append
       (String.concat ", "
          (map (fun s => String.append "'" (String.append s "'")) l))
       "]").

(** Lines 83-90: [filter_classes] is only checked. *)
Definition check_filter_classes (model_instance : Model)
  (filter_classes : option (list string)) : M unit :=
  match filter_classes with
  | None | Some [] => ret tt
  | Some l =>
      let err_msg :=
        String.append
          "members of filter classes must bemembers of model_instance.classes.Expected members of: "
          (String.append (repr_list (target_names model_instance))
             (String.append newline
                (String.append "got: " (repr_list l)))) in
      if forallb (fun i => existsb (String.eqb i) (target_names model_instance)) l
      then ret tt
      else raise (AssertionError err_msg)
  end.

(** Lines 92-99. *)
Definition resolve_training_labels (self : Interpretation) (method : string)
  : M (option ndarray) :=
  if String.eqb method "conditional-permutation" then
    match training_labels self with
    | None =>
        raise (FeatureImportanceError
          "If interpretation.training_labels are not set, youcan only use feature importance methods that do not require ground truth labels")
    | Some labels => ret (Some labels)
    end
  else ret None.

(** Lines 101-106: the rows every task starts from. *)
Definition choose_inputs (self : Interpretation) (n_samples : Z) : M Data :=
  if (n_samples <=? Z.of_nat (n_rows (data_set self)))%Z then
    emit (EvGenerateSample n_samples) ;;
    lift (generate_sample (data_set self) n_samples)
  else ret (data (data_set self)).

(** What the pool's iterator yields: the task results in order, unless
    the pool itself breaks. *)
Definition pool_stream (fault : option (nat * exn))
  (results : list (result dict)) : list (result dict) :=
  match fault with
  | None => results
  | Some (k, e) => firstn k results ++ [Raise e]
  end.

(** The loop of lines 139-142 over the pool's iterator. *)
Fixpoint consume (progressbar : bool) (stream : list (result dict))
  : M (list dict) :=
  match stream with
  | [] => ret []
  | r :: rest =>
      importance <- lift r ;;
      (if progressbar then emit EvAnimate else ret tt) ;;
      importance_dicts <- consume progressbar rest ;;
      ret (importance :: importance_dicts)
  end.

(** The loop of lines 146-149 over the builtin (lazy) [map]. *)
Fixpoint run_local (progressbar : bool) (fi_func : fid -> result dict)
  (arg_list : list fid) : M (list dict) :=
  match arg_list with
  | [] => ret []
  | a :: rest =>
      emit (EvLocalTask a) ;;
      importance <- lift (fi_func a) ;;
      (if progressbar then emit EvAnimate else ret tt) ;;
      importance_dicts <- run_local progressbar fi_func rest ;;
      ret (importance :: importance_dicts)
  end.

Definition option_Z_eqb (a : option Z) (b : Z) : bool :=
  match a with Some x => Z.eqb x b | None => false end.

(** Lines 136-142: the attempt on the pool.  With [n_jobs == 1] it is
    given up at once by raising. *)
Definition parallel_attempt (self : Interpretation) (n_jobs : option Z)
  (progressbar : bool) (fi_func : fid -> result dict) (arg_list : list fid)
  : M (list dict) :=
  if option_Z_eqb n_jobs 1 then
    raise (ValueError "Skipping to single processing")
  else
    emit (EvPoolMap progressbar) ;;
    consume progressbar
      (pool_stream (pool_fault (multiprocessing self)) (map fi_func arg_list)).

(** Lines 144-149: the handler of the bare [except]. *)
Definition sequential_rerun (progressbar : bool)
  (fi_func : fid -> result dict) (arg_list : list fid) : M (list dict) :=
  emit (EvWarn "Multiprocessing failed, going single process") ;;
  run_local progressbar fi_func arg_list.

(** Lines 151-153: the [finally] clause. *)
Definition release_pool : M unit :=
  emit EvPoolClose ;; emit EvPoolJoin ;; emit EvPoolTerminate.

(** Lines 134-153. *)
Definition dispatch (self : Interpretation) (n_jobs : option Z)
  (progressbar : bool) (fi_func : fid -> result dict) (arg_list : list fid)
  : M (list dict) :=
  try_except_finally
    (parallel_attempt self n_jobs progressbar fi_func arg_list)
    (sequential_rerun progressbar fi_func arg_list)
    release_pool.

(** [d[k] = v] on an insertion-ordered dict. *)
Fixpoint dict_set (k : fid) (v : num) (d : dict) : dict :=
  match d with
  | [] => [(k, v)]
  | (k', v') :: d' =>
      if String.eqb k k' then (k, v) :: d' else (k', v') :: dict_set k v d'
  end.

(** [d.update(i)] *)
Definition dict_update (d i : dict) : dict :=
  fold_left (fun acc kv => dict_set (fst kv) (snd kv) acc) i d.

(** Lines 134 and 155-156: the raw importance mapping. *)
Definition merge (importance_dicts : list dict) : dict :=
  fold_left dict_update importance_dicts [].

Definition is_nan (a : num) : bool :=
  match a with NaN => true | _ => false end.

(** [pd.Series(importances).sort_values(ascending=ascending)]: the
    entries ordered by value, NaN last.  pandas leaves the order of
    equal values open; here an entry is put in front of the first entry
    it must precede. *)
Definition precedes (ascending : bool) (x y : fid * num) : bool :=
  if is_nan (snd x) then false
  else if is_nan (snd y) then true
  else if ascending then nltb (snd x) (snd y) else ngtb (snd x) (snd y).

Fixpoint sort_insert (ascending : bool) (x : fid * num) (l : dict) : dict :=
  match l with
  | [] => [x]
  | y :: l' =>
      if precedes ascending x y then x :: y :: l'
      else y :: sort_insert ascending x l'
  end.

Definition sort_values (ascending : bool) (s : dict) : dict :=
  fold_right (sort_insert ascending) [] s.

(** [Series.sum()]: pandas leaves NaN entries out of the sum. *)
Definition series_sum (s : dict) : num :=
  nsum (filter (fun v => negb (is_nan v)) (map snd s)).

(** Modelled from the spec: [divide_zerosafe] of [util.dataops], which
    is not among the sources; the quotient, except that a position
    where numerator and denominator are both zero yields zero. *)
Definition divide_zerosafe_1 (a b : num) : num :=
  if neqb a zero && neqb b zero then zero else ndiv a b.

Definition divide_zerosafe (s : dict) (d : list num) : result dict :=
  (fix go (s : dict) (d : list num) : result dict :=
     match s, d with
     | [], [] => Ok []
     | (k, v) :: s', b :: d' =>
         match go s' d' with
         | Ok r => Ok ((k, divide_zerosafe_1 v b) :: r)
         | Raise e => Raise e
         end
     | _, _ => Raise shape_error
     end) s d.

Definition positivity_msg : string :=
  String.concat newline
    ["Something went wrong. Importances do not sum to a positive value";
     "This could be due to:";
     "1) 0 or infinite divisions";
     "2) perturbed values == original values";
     "3) feature is a constant";
     "Please submit an issue here:";
     "https://github.com/datascienceinc/Skater/issues"].

(** Lines 158-171: order, check, normalize. *)
Definition finish (ascending : bool) (importances : dict) : M dict :=
  let importances := sort_values ascending importances in
  if negb (ngtb (series_sum importances) (of_Z 0)) then
    emit (EvDebug importances) ;;
    raise (FeatureImportanceError positivity_msg)
  else
    emit EvNormalize ;;
    lift (divide_zerosafe importances
            (map (fun o => nmul o (series_sum importances))
                 (ones (length importances)))).

(** Lines 123-132: the task as a function of the feature id alone. *)
Definition fi_func (self : Interpretation) (model_instance : Model)
  (inputs : Data) (original_predictions : ndarray)
  (training_labels : option ndarray) (method : string) (use_scaling : bool)
  (feature_id : fid) : result dict :=
  compute_feature_importance (DataManager self) feature_id inputs
    (_get_static_predictor model_instance) original_predictions
    (feature_info (data_set self)) (feature_ids (data_set self))
    training_labels method use_scaling (scorers_default model_instance).

(** Line 109. *)
Definition resolve_n_jobs (n_jobs : Z) : option Z :=
  if (n_jobs <? 0)%Z then None else Some n_jobs.

(** Lines 83-121: validation, the baseline rows, the baseline
    predictions, the pool, the progress bar.  It hands on what the
    tasks share: the baseline rows, their predictions, the labels. *)
Definition prelude (self : Interpretation) (model_instance : Model)
  (filter_classes : option (list string)) (n_jobs : Z) (progressbar : bool)
  (n_samples : Z) (method : string) : M (Data * ndarray * option ndarray) :=
  check_filter_classes model_instance filter_classes ;;
  training_labels <- resolve_training_labels self method ;;
  inputs <- choose_inputs self n_samples ;;
  emit (EvPredict inputs) ;;
  original_predictions <- lift (predict model_instance inputs) ;;
  emit (EvPoolCreate (resolve_n_jobs n_jobs)) ;;
  lift (Pool (multiprocessing self) (resolve_n_jobs n_jobs)) ;;
  (if progressbar then
     emit (EvWarn (String.append
                     "Progress bars slow down runs by 10-20%. For slightly "
                     (String.append newline
                        "faster runs, do progress_bar=False"))) ;;
     emit (EvProgressBar (length (feature_ids (data_set self))))
   else ret tt) ;;
  ret (inputs, original_predictions, training_labels).

(** Lines 83-156: everything up to the raw importance mapping. *)
Definition raw_importances (self : Interpretation) (model_instance : Model)
  (filter_classes : option (list string)) (n_jobs : Z) (progressbar : bool)
  (n_samples : Z) (method : string) (use_scaling : bool) : M dict :=
  shared <- prelude self model_instance filter_classes n_jobs progressbar
              n_samples method ;;
  let '(inputs, original_predictions, training_labels) := shared in
  importance_dicts <-
    dispatch self (resolve_n_jobs n_jobs) progressbar
      (fi_func self model_instance inputs original_predictions
         training_labels method use_scaling)
      (feature_ids (data_set self)) ;;
  ret (merge importance_dicts).

(** [feature_importance], lines 23-171.  The [scorer] argument of the
    Python method is never read (the model's default scorer is used). *)
Definition feature_importance (self : Interpretation) (model_instance : Model)
  (ascending : bool) (filter_classes : option (list string)) (n_jobs : Z)
  (progressbar : bool) (n_samples : Z) (method : string) (scorer : string)
  (use_scaling : bool) : M dict :=
  importances <-
    raw_importances self model_instance filter_classes n_jobs progressbar
      n_samples method use_scaling ;;
  finish ascending importances.

End FeatureImportance.

Import FeatureImportance.

(* ================================================================== *)
(** * A small concrete setting *)
(* ================================================================== *)

(** Two features, a model that predicts [3 * a + 0 * b], a column
    sampler that rotates the column by one row, and a pool whose
    behaviour is chosen per example. *)
Module Example.

Definition index_of (f : fid) (names : list fid) : option nat :=
  (fix go (names : list fid) (i : nat) : option nat :=
     match names with
     | [] => None
     | g :: names' => if String.eqb f g then Some i else go names' (S i)
     end) names 0%nat.

Definition column (d : Data) (names : list fid) (f : fid) : result (list num) :=
  match index_of f names with
  | Some i => Ok (map (fun row => nth i row NaN) d)
  | None => Raise (KeyError f)
  end.

Fixpoint set_nth (i : nat) (v : num) (row : list num) : list num :=
  match i, row with
  | _, [] => []
  | O, _ :: row' => v :: row'
  | S i', x :: row' => x :: set_nth i' v row'
  end.

Definition set_column (d : Data) (names : list fid) (f : fid) (c : list num)
  : result Data :=
  match index_of f names with
  | Some i =>
      if Nat.eqb (length c) (length d)
      then Ok (map (fun rc => set_nth i (snd rc) (fst rc)) (combine d c))
      else Raise (ValueError "Length of values does not match length of index")
  | None => Raise (KeyError f)
  end.

Definition rotate (l : list num) : list num :=
  match l with
  | [] => []
  | x :: l' => l' ++ [x]
  end.

Definition manager : DataManagerCls := {|
  dm_n_rows := fun d => length d;
  dm_getitem := column;
  dm_setitem := set_column;
  generate_column_sample := fun d names f _ _ =>
    match column d names f with
    | Ok c => Ok (rotate c)
    | Raise e => Raise e
    end
|}.

Definition rows : Data :=
  [ [of_Z 0; of_Z 5]; [of_Z 1; of_Z 7]; [of_Z 3; of_Z 6] ].

(** A sampler for the rows of the dataset: the first [n] rows, last
    row first. *)
Definition sample_rows (n : Z) : result Data :=
  Ok (rev (firstn (Z.to_nat n) rows)).

Definition dataset : DataSet := {|
  n_rows := 3;
  data := rows;
  feature_ids := ["a"; "b"];
  feature_info := fun f =>
    if String.eqb f "a" then Some true
    else if String.eqb f "b" then Some false else None;
  generate_sample := sample_rows
|}.

Definition predict_3a (d : Data) : result ndarray :=
  Ok (Arr1 (map (fun row => nmul (of_Z 3) (nth 0 row NaN)) d)).

(** Mean absolute error, a "lower is better" scorer; weights ignored. *)
Definition mae : Scorer := {|
  score := fun labels predictions _ =>
    match labels, predictions with
    | Some (Arr1 y), Arr1 p =>
        match zip_with (fun a b => nabs (nsub a b)) y p with
        | Ok l => Ok (mean l)
        | Raise e => Raise e
        end
    | _, _ => Raise (ValueError "bad input")
    end;
  stype := decreasing
|}.

(** Mean absolute error with the optional row weights, as
    [np.average(errors, weights=sample_weight)] computes it: the
    weighted sum over the sum of the weights, which must not be zero. *)
Definition weighted_mae : Scorer := {|
  score := fun labels predictions sample_weight =>
    match labels, predictions with
    | Some (Arr1 y), Arr1 p =>
        match zip_with (fun a b => nabs (nsub a b)) y p with
        | Ok errors =>
            match sample_weight with
            | None => Ok (mean errors)
            | Some w =>
                match zip_with nmul errors w with
                | Ok weighted =>
                    if neqb (nsum w) zero
                    then Raise (OtherError
                           "ZeroDivisionError: Weights sum to zero, can't be normalized")
                    else Ok (ndiv (nsum weighted) (nsum w))
                | Raise e => Raise e
                end
            end
        | Raise e => Raise e
        end
    | _, _ => Raise (ValueError "bad input")
    end;
  stype := decreasing
|}.

Definition model : Model := {|
  target_names := ["yes"; "no"];
  predict := predict_3a;
  _get_static_predictor := predict_3a;
  scorers_default := mae
|}.

(** The model's predictions on the whole dataset. *)
Definition baseline_predictions : ndarray :=
  Arr1 (map (fun row => nmul (of_Z 3) (nth 0 row NaN)) rows).

Definition healthy_pool : PoolEnv := {|
  Pool := fun _ => Ok tt;
  pool_fault := None
|}.

(** A pool that breaks when the second result is fetched. *)
Definition broken_pool : PoolEnv := {|
  Pool := fun _ => Ok tt;
  pool_fault := Some (1%nat, OtherError "PicklingError")
|}.

(** [Pool(n)] as [multiprocessing] builds it: at least one process. *)
Definition strict_pool : PoolEnv := {|
  Pool := fun n =>
    match n with
    | Some k => if (k <? 1)%Z
                then Raise (ValueError "Number of processes must be at least 1")
                else Ok tt
    | None => Ok tt
    end;
  pool_fault := None
|}.

(** No pool can be built at all. *)
Definition no_pool : PoolEnv := {|
  Pool := fun _ => Raise (OtherError "OSError: cannot allocate memory");
  pool_fault := None
|}.

Definition interp (p : PoolEnv) : Interpretation := {|
  data_set := dataset;
  training_labels := Some (Arr1 [of_Z 0; of_Z 3; of_Z 9]);
  DataManager := manager;
  multiprocessing := p
|}.






End Example.

(* ================================================================== *)
(** * The specification's formulas *)
(* ================================================================== *)

(** Definitions that follow the wording of the specification, to be
    compared with the functions above. *)
Module Spec.

Local Open Scope Qc_scope.
Local Open Scope result_scope.

(** The per-row scales, before any fallback. *)
Definition row_scales (mx mn : num) (original_x perturbed_x : list num)
  : list num :=
  map (fun po => ndiv (nabs (nsub (fst po) (snd po))) (nsub mx mn))
      (combine perturbed_x original_x).

(** The scale estimator in the words of the specification: the
    uniform weights replace the scales when every row's scale is zero,
    and only then. *)
Definition importance_scaler_spec (original_x perturbed_x : list num)
  : result (list num) :=
  perturbed_x <- reshape_like original_x perturbed_x ;;
  mx <- py_max original_x ;;
  mn <- py_min original_x ;;
  let scales := row_scales mx mn original_x perturbed_x in
  if forallb (fun s => neqb s zero) scales
  then Ok (ones (length perturbed_x))
  else Ok scales.

(** [mentions sub s]: the text [sub] occurs in [s]. *)
Definition mentions (sub s : string) : bool :=
  match String.index 0 sub s with
  | Some _ => true
  | None => false
  end.

(** A message names the valid choices when both method names occur in
    it. *)
Definition names_valid_methods (msg : string) : bool :=
  mentions "output-variance" msg && mentions "conditional-permutation" msg.

Definition message (e : exn) : string :=
  match e with
  | AssertionError m | FeatureImportanceError m | KeyError m
  | ValueError m | OtherError m => m
  end.

(** The plain mean absolute difference between perturbed and original
    predictions, differences taken elementwise. *)
Definition mean_absolute_difference (new_predictions original_predictions : ndarray)
  : result num :=
  match new_predictions, original_predictions with
  | Arr1 u, Arr1 v =>
      d <- zip_with (fun x y => nabs (nsub x y)) u v ;; Ok (mean d)
  | Arr2 m, Arr2 n =>
      d <- zip_with2 (fun x y => nabs (nsub x y)) m n ;; Ok (mean (List.concat d))
  | _, _ => Raise shape_error
  end.

(** The absolute difference of each row, summed across the extra
    dimension when the predictions have one. *)
Definition row_differences (new_predictions original_predictions : ndarray)
  : result (list num) :=
  match new_predictions, original_predictions with
  | Arr1 u, Arr1 v => zip_with (fun x y => nabs (nsub x y)) u v
  | Arr2 m, Arr2 n =>
      d <- zip_with2 (fun x y => nabs (nsub x y)) m n ;; Ok (map nsum d)
  | _, _ => Raise shape_error
  end.

(** Each row's difference multiplied by that row's scale factor, then
    averaged. *)
Definition scaled_mean_absolute_difference
  (new_predictions original_predictions : ndarray) (scales : list num)
  : result num :=
  d <- row_differences new_predictions original_predictions ;;
  weighted <- zip_with nmul d scales ;;
  Ok (mean weighted).

(** +1 for a "higher is better" scorer, -1 for a "lower is better" one. *)
Definition direction (t : scorer_type) : Qc :=
  match t with
  | increasing => Q2Qc (inject_Z 1)
  | decreasing => Q2Qc (inject_Z (-1))
  end.

Definition Qc_max (a b : Qc) : Qc := if Qc_ltb a b then b else a.

(** max(0, direction * (score_before - score_after)) *)
Definition score_degradation (t : scorer_type) (score_before score_after : Qc)
  : Qc :=
  Qc_max (Q2Qc 0) (direction t * (score_before - score_after)).

(** The optional per-row scale factors handed to the scorer. *)
Definition sample_weight (scaled : bool) (original_x perturbed_x : list num)
  : result (option (list num)) :=
  if scaled then
    w <- FeatureImportance.importance_scaler original_x perturbed_x ;;
    Ok (Some w)
  else Ok None.

(** Running the tasks one after the other: the results in order, or
    the first exception. *)
Fixpoint sequence (rs : list (result dict)) : result (list dict) :=
  match rs with
  | [] => Ok []
  | r :: rest => d <- r ;; ds <- sequence rest ;; Ok (d :: ds)
  end.

Definition sequential_results (task : fid -> result dict) (args : list fid)
  : result (list dict) :=
  sequence (map task args).

(** [filter_classes] passes the validation: nothing given, or a subset
    of the model's target classes. *)
Definition passes_validation (model_instance : Model)
  (filter_classes : option (list string)) : Prop :=
  match filter_classes with
  | None => True
  | Some l => forall c, In c l -> In c (target_names model_instance)
  end.

(** The same interpretation context with another pool behaviour. *)
Definition with_pool (self : Interpretation) (p : PoolEnv) : Interpretation :=
  {| data_set := data_set self;
     training_labels := training_labels self;
     DataManager := DataManager self;
     multiprocessing := p |}.

(** Kinds of events. *)
Definition is_predict (ev : event) : bool :=
  match ev with EvPredict _ => true | _ => false end.
Definition is_pool_create (ev : event) : bool :=
  match ev with EvPoolCreate _ => true | _ => false end.
Definition is_pool_map (ev : event) : bool :=
  match ev with EvPoolMap _ => true | _ => false end.
Definition is_local_task (ev : event) : bool :=
  match ev with EvLocalTask _ => true | _ => false end.

(** The events of lines 114-118. *)
Definition progress_events (self : Interpretation) (pb : bool) : list event :=
  if pb then
    [EvWarn (String.append
               "Progress bars slow down runs by 10-20%. For slightly "
               (String.append newline "faster runs, do progress_bar=False"));
     EvProgressBar (length (feature_ids (data_set self)))]
  else [].

(** The events of lines 134-153. *)
Definition dispatch_event (ev : event) : bool :=
  match ev with
  | EvPoolMap _ | EvLocalTask _ | EvAnimate | EvWarn _
  | EvPoolClose | EvPoolJoin | EvPoolTerminate => true
  | _ => false
  end.

(** The events of lines 158-171. *)
Definition finish_event (ev : event) : bool :=
  match ev with
  | EvDebug _ | EvNormalize => true
  | _ => false
  end.

(** The events of lines 83-121. *)
Definition prelude_event (ev : event) : bool :=
  match ev with
  | EvGenerateSample _ | EvPredict _ | EvPoolCreate _ | EvWarn _
  | EvProgressBar _ => true
  | _ => false
  end.

(** [nge a b]: neither is NaN and [a] is at least [b]. *)
Definition nge (a b : num) : Prop :=
  match ncompare a b with
  | Some Gt | Some Eq => True
  | _ => False
  end.

(** Sum of a list of rationals. *)
Definition Qc_sum (l : list Qc) : Qc := fold_right Qcplus (Q2Qc 0) l.




End Spec.
Import Spec.

(* ================================================================== *)
(** * Plotting *)
(* ================================================================== *)

(** [plot_feature_importance], lines 174-252: the importances as a
    horizontal bar chart.  matplotlib is a collaborator: whether
    [pyplot] can be imported, what [subplots] and the drawing of the
    bars do. *)
Module FeatureImportancePlot.

Definition figure : Type := nat.
Definition axes : Type := nat.

(** How [from matplotlib import pyplot] ends. *)
Inductive import_outcome : Type :=
| Imported
| ImportError
| RuntimeError
| ImportRaises (e : exn).

Inductive plot_exn : Type :=
| MatplotlibUnavailableError (msg : string)
| MatplotlibDisplayError (msg : string)
| StopIteration                      (* next() on an empty cycle *)
| Propagated (e : exn).              (* raised further down, passed on *)

Inductive plot_result (A : Type) : Type :=
| Plotted (a : A)
| PlotRaise (e : plot_exn).
Arguments Plotted {A} a.
Arguments PlotRaise {A} e.

Inductive plot_event : Type :=
| EvImportPyplot
| EvCore (ev : event)                (* an event of feature_importance *)
| EvSubplots (n : nat)               (* pyplot.subplots(n) *)
| EvBarh (ax : axes) (color : string) (bars : dict).
                                     (* Series.plot(kind='barh', ax, color) *)

Record Matplotlib : Type := {
  import_pyplot : import_outcome;
  subplots : nat -> result (figure * axes);
  figure_of : axes -> figure;                       (* ax.figure *)
  plot_barh : axes -> string -> dict -> result unit
}.

(** [next(cycle(COLORS))] *)
Definition first_color (COLORS : list string) : plot_result string :=
  match COLORS with
  | [] => PlotRaise StopIteration
  | c :: _ => Plotted c
  end.

Definition plot_feature_importance (self : Interpretation)
  (pyplot : Matplotlib) (COLORS : list string) (predict_fn : Model)
  (filter_classes : option (list string)) (ascending : bool)
  (ax : option axes) (progressbar : bool) (n_jobs : Z) (n_samples : Z)
  (method : string) (use_scaling : bool)
  : list plot_event * plot_result (figure * axes) :=
  match import_pyplot pyplot with
  | ImportError =>
      ([EvImportPyplot],
       PlotRaise (MatplotlibUnavailableError
                    "Matplotlib is required but unavailable on your system."))
  | RuntimeError =>
      ([EvImportPyplot],
       PlotRaise (MatplotlibDisplayError "Matplotlib unable to open display"))
  | ImportRaises e => ([EvImportPyplot], PlotRaise (Propagated e))
  | Imported =>
      (* ascending and scorer are left at their defaults *)
      let (t, r) :=
        feature_importance self predict_fn true filter_classes n_jobs
          progressbar n_samples method "default" use_scaling in
      let t := EvImportPyplot :: map EvCore t in
      match r with
      | Raise e => (t, PlotRaise (Propagated e))
      | Ok importances =>
          let made :=
            match ax with
            | None => (t ++ [EvSubplots 1], subplots pyplot 1)
            | Some a => (t, Ok (figure_of pyplot a, a))
            end in
          match made with
          | (t, Raise e) => (t, PlotRaise (Propagated e))
          | (t, Ok (f, ax)) =>
              match first_color COLORS with
              | PlotRaise e => (t, PlotRaise e)
              | Plotted color =>
                  let bars := sort_values ascending importances in
                  match plot_barh pyplot ax color bars with
                  | Raise e =>
                      (t ++ [EvBarh ax color bars], PlotRaise (Propagated e))
                  | Ok _ => (t ++ [EvBarh ax color bars], Plotted (f, ax))
                  end
              end
          end
      end
  end.

End FeatureImportancePlot.
Import FeatureImportancePlot.

(* ================================================================== *)
(** * Observations on runs and results *)
(* ================================================================== *)

Module Observations.

Local Open Scope Qc_scope.

Definition is_release (ev : event) : bool :=
  match ev with
  | EvPoolClose | EvPoolJoin | EvPoolTerminate => true
  | _ => false
  end.

Definition is_animate (ev : event) : bool :=
  match ev with EvAnimate => true | _ => false end.

(** Anything the progress bar causes: the warning about its cost
    apart. *)
Definition is_progress (ev : event) : bool :=
  match ev with
  | EvProgressBar _ | EvAnimate => true
  | _ => false
  end.

(** The warning of line 144. *)
Definition is_fallback_warning (ev : event) : bool :=
  match ev with
  | EvWarn msg => String.eqb msg "Multiprocessing failed, going single process"
  | _ => false
  end.

Definition is_core (ev : plot_event) : bool :=
  match ev with EvCore _ => true | _ => false end.

Definition is_drawing (ev : plot_event) : bool :=
  match ev with EvSubplots _ | EvBarh _ _ _ => true | _ => false end.

(** Two finite values in the requested order. *)
Definition in_order (ascending : bool) (a b : fid * num) : Prop :=
  match snd a, snd b with
  | Fin x, Fin y => if ascending then x <= y else y <= x
  | _, _ => False
  end.

(** A finite number between 0 and 1. *)
Definition unit_interval (a : num) : Prop :=
  match a with
  | Fin q => Q2Qc 0 <= q /\ q <= Q2Qc 1
  | _ => False
  end.

Definition all_finite2 (a : ndarray) : Prop :=
  match a with
  | Arr1 v => Forall is_finite v
  | Arr2 m => Forall (Forall is_finite) m
  end.

(** The number of elements of an array. *)
Definition size (a : ndarray) : nat :=
  match a with
  | Arr1 v => length v
  | Arr2 m => length (List.concat m)
  end.

End Observations.
Import Observations.

(* ================================================================== *)
(** * Facts about numbers and arrays *)
(* ================================================================== *)

(** Closed equations between numbers: canonical rationals are equal as
    soon as their fractions are. *)
Ltac num_refl :=
  vm_compute;
  repeat match goal with
         | |- @eq Qc _ _ => apply Qc_is_canon; reflexivity
         | |- _ => reflexivity
         | |- _ => f_equal
         end.

Section NumFacts.

Local Open Scope Qc_scope.

Lemma nadd_zero_l (a : num) : nadd zero a = a.
Proof.
  destruct a; simpl; try reflexivity.
  f_equal. unfold zero. ring.
Qed.

Lemma nadd_comm (a b : num) : nadd a b = nadd b a.
Proof. destruct a, b; simpl; try reflexivity. f_equal; ring. Qed.

Lemma nadd_assoc (a b c : num) : nadd a (nadd b c) = nadd (nadd a b) c.
Proof. destruct a, b, c; simpl; try reflexivity. f_equal; ring. Qed.

Lemma fold_nadd (l : list num) (x : num) :
  fold_left nadd l x = nadd x (nsum l).
Proof.
  unfold nsum. revert x. induction l as [|b l IH]; intros x; cbn [fold_left].
  - destruct x; simpl; try reflexivity. f_equal; ring.
  - rewrite IH. rewrite (IH (nadd zero b)). rewrite nadd_zero_l.
    apply eq_sym, nadd_assoc.
Qed.

Lemma nsum_cons (a : num) (l : list num) : nsum (a :: l) = nadd a (nsum l).
Proof.
  unfold nsum at 1. cbn [fold_left]. rewrite nadd_zero_l. apply fold_nadd.
Qed.

Lemma nsum_singleton (a : num) : nsum [a] = a.
Proof. unfold nsum; cbn [fold_left]. apply nadd_zero_l. Qed.

Lemma Qc_ltb_lt (a b : Qc) : Qc_ltb a b = true <-> a < b.
Proof.
  unfold Qc_ltb. rewrite Qclt_alt. destruct (a ?= b); split; congruence.
Qed.

Lemma Qc_ltb_ge (a b : Qc) : Qc_ltb a b = false <-> b <= a.
Proof.
  split; intros H.
  - apply Qcnot_lt_le. intros L. apply Qc_ltb_lt in L. congruence.
  - destruct (Qc_ltb a b) eqn:E; [|reflexivity].
    apply Qc_ltb_lt in E. exfalso. exact (Qcle_not_lt _ _ H E).
Qed.

Lemma Qccompare_Gt (a b : Qc) : (a ?= b) = Gt <-> b < a.
Proof.
  rewrite Qclt_alt. unfold Qccompare.
  rewrite <- (Qcompare_antisym (this a) (this b)).
  destruct (Qcompare (this a) (this b)); simpl; split; congruence.
Qed.

Lemma ngtb_Fin (a b : Qc) : ngtb (Fin a) (Fin b) = true <-> b < a.
Proof.
  unfold ngtb; simpl. rewrite <- Qccompare_Gt.
  destruct (a ?= b); split; congruence.
Qed.

Lemma nltb_Fin (a b : Qc) : nltb (Fin a) (Fin b) = true <-> a < b.
Proof.
  unfold nltb; simpl. rewrite Qclt_alt. destruct (a ?= b); split; congruence.
Qed.

Lemma neqb_Fin (a b : Qc) : neqb (Fin a) (Fin b) = true <-> a = b.
Proof.
  unfold neqb; simpl. rewrite Qceq_alt. destruct (a ?= b); split; congruence.
Qed.

Lemma nabs_not_negative (a : num) : not_negative (nabs a).
Proof. destruct a; simpl; auto. apply Qcabs_nonneg. Qed.

Lemma not_negative_nadd (a b : num) :
  not_negative a -> not_negative b -> not_negative (nadd a b).
Proof.
  destruct a, b; simpl; auto. intros Ha Hb.
  replace (Q2Qc 0) with (Q2Qc 0 + Q2Qc 0) by ring.
  now apply Qcplus_le_compat.
Qed.

Lemma not_negative_nsum (l : list num) :
  Forall not_negative l -> not_negative (nsum l).
Proof.
  induction 1 as [|a l Ha _ IH].
  - simpl. apply Qcle_refl.
  - rewrite nsum_cons. now apply not_negative_nadd.
Qed.

End NumFacts.

Section ArrayFacts.

Local Open Scope Qc_scope.

Lemma Qc_eq_bool_true (a b : Qc) : Qc_eq_bool a b = true <-> a = b.
Proof.
  split.
  - apply Qc_eq_bool_correct.
  - intros ->. unfold Qc_eq_bool. destruct (Qc_eq_dec b b); congruence.
Qed.

Lemma zip_with_same_length (f : num -> num -> num) (a b : list num) :
  length a = length b ->
  zip_with f a b = Ok (map (fun ab => f (fst ab) (snd ab)) (combine a b)).
Proof.
  revert b. induction a as [|x a IH]; intros [|y b] H; simpl in *;
    try discriminate; try reflexivity.
  rewrite IH by lia. reflexivity.
Qed.

Lemma zip_with_length (f : num -> num -> num) (a b l : list num) :
  zip_with f a b = Ok l -> length a = length b /\ length l = length a.
Proof.
  revert b l. induction a as [|x a IH]; intros [|y b] l H; simpl in *;
    try discriminate.
  - inversion H; auto.
  - destruct (zip_with f a b) as [l'|] eqn:E; [|discriminate].
    inversion H; subst. destruct (IH _ _ E). simpl. lia.
Qed.

Lemma zip_with_Forall (P : num -> Prop) (f : num -> num -> num)
  (a b l : list num) :
  (forall x y, In x a -> In y b -> P (f x y)) ->
  zip_with f a b = Ok l -> Forall P l.
Proof.
  revert b l. induction a as [|x a IH]; intros [|y b] l Hf H; simpl in *;
    try discriminate.
  - inversion H; constructor.
  - destruct (zip_with f a b) as [l'|] eqn:E; [|discriminate].
    inversion H; subst. constructor.
    + apply Hf; auto.
    + apply (IH b); auto.
Qed.

Lemma count_truthy (P : num -> bool) (l : list num) :
  negb (Nat.eqb (length (filter P l)) 0) = existsb P l.
Proof.
  induction l as [|x l IH]; simpl; [reflexivity|].
  destruct (P x); simpl; auto.
Qed.

Lemma py_max_finite (l : list num) (q : Qc) :
  Forall is_finite l -> exists m, fold_left py_max2 l (Fin q) = Fin m.
Proof.
  intros H. revert q. induction H as [|x l Hx _ IH]; intros q; simpl.
  - now exists q.
  - destruct x as [r| | |]; try contradiction.
    unfold py_max2 at 2. destruct (ngtb (Fin r) (Fin q)); apply IH.
Qed.

Lemma py_min_finite (l : list num) (q : Qc) :
  Forall is_finite l -> exists m, fold_left py_min2 l (Fin q) = Fin m.
Proof.
  intros H. revert q. induction H as [|x l Hx _ IH]; intros q; simpl.
  - now exists q.
  - destruct x as [r| | |]; try contradiction.
    unfold py_min2 at 2. destruct (nltb (Fin r) (Fin q)); apply IH.
Qed.

Lemma py_max_repeat (c : Qc) (n : nat) :
  fold_left py_max2 (repeat (Fin c) n) (Fin c) = Fin c.
Proof.
  induction n as [|n IH]; simpl; [reflexivity|].
  unfold py_max2 at 2. unfold ngtb; simpl.
  replace (c ?= c) with Eq; [exact IH|].
  symmetry. now apply Qceq_alt.
Qed.

Lemma py_min_repeat (c : Qc) (n : nat) :
  fold_left py_min2 (repeat (Fin c) n) (Fin c) = Fin c.
Proof.
  induction n as [|n IH]; simpl; [reflexivity|].
  unfold py_min2 at 2. unfold nltb; simpl.
  replace (c ?= c) with Eq; [exact IH|].
  symmetry. now apply Qceq_alt.
Qed.

End ArrayFacts.

(* ================================================================== *)
(** * The scale estimator *)
(* ================================================================== *)

Section ScaleEstimator.

Local Open Scope Qc_scope.
Local Open Scope result_scope.

Lemma importance_scaler_unfold (o p : list num) (mx mn : num) :
  length p = length o ->
  py_max o = Ok mx -> py_min o = Ok mn ->
  importance_scaler o p =
  Ok (if existsb (fun s => neqb s zero) (row_scales mx mn o p)
      then ones (length o) else row_scales mx mn o p).
Proof.
  intros Hlen Hmx Hmn. unfold importance_scaler, reshape_like.
  rewrite Hlen, Nat.eqb_refl. cbn [rbind]. rewrite Hmx, Hmn. cbn [rbind].
  rewrite zip_with_same_length by exact Hlen. cbn [rbind].
  rewrite count_truthy. fold (row_scales mx mn o p).
  rewrite Hlen. now destruct (existsb _ _).
Qed.

Lemma row_scales_identical (mx mn : Qc) (o : list num) :
  Forall is_finite o -> mx <> mn ->
  row_scales (Fin mx) (Fin mn) o o = repeat zero (length o).
Proof.
  intros Hf Hne. unfold row_scales.
  induction Hf as [|x o Hx _ IH]; [reflexivity|].
  cbn [combine map length repeat fst snd].
  rewrite IH. f_equal.
  destruct x as [q| | |]; try contradiction. simpl.
  assert (E : Qc_eq_bool (mx + - mn) (Q2Qc 0) = false).
  { destruct (Qc_eq_bool (mx + - mn) (Q2Qc 0)) eqn:E; [|reflexivity].
    apply Qc_eq_bool_true in E. exfalso. apply Hne.
    transitivity (mx + - mn + mn); [ring|]. rewrite E. ring. }
  rewrite E. unfold zero. f_equal.
  replace (q + - q) with (Q2Qc 0) by ring.
  rewrite Qcabs_pos by apply Qcle_refl. field.
  intros Z. apply Qc_eq_bool_true in Z. congruence.
Qed.

Lemma row_scales_constant (c : Qc) (n : nat) :
  row_scales (Fin c) (Fin c) (repeat (Fin c) n) (repeat (Fin c) n)
  = repeat NaN n.
Proof.
  unfold row_scales. induction n as [|n IH]; [reflexivity|].
  cbn [combine map length repeat fst snd].
  rewrite IH. f_equal. simpl.
  replace (c + - c) with (Q2Qc 0) by ring.
  rewrite Qcabs_pos by apply Qcle_refl.
  reflexivity.
Qed.

Lemma existsb_repeat_NaN (n : nat) :
  existsb (fun s => neqb s zero) (repeat NaN n) = false.
Proof. induction n; simpl; auto. Qed.

(** C7, as the code has it.  [importance_scaler] computes for every
    row the scale |perturbed - original| / (max(original) -
    min(original)) and returns a uniform weight of 1 for every row as
    soon as AT LEAST ONE row's scale is zero, and the scales themselves
    otherwise.  So a perturbation identical to the original on a
    feature that is not constant gives the uniform weights; on a
    constant feature the divisor is zero, the scales are NaN, no scale
    is zero and the NaN scales are returned. *)
Theorem importance_scaler_any_zero :
  (forall (o p : list num) (mx mn : num),
      length p = length o ->
      py_max o = Ok mx -> py_min o = Ok mn ->
      importance_scaler o p =
      Ok (if existsb (fun s => neqb s zero) (row_scales mx mn o p)
          then ones (length o) else row_scales mx mn o p))
  /\ (forall (o : list num) (mx mn : num),
         Forall is_finite o ->
         py_max o = Ok mx -> py_min o = Ok mn -> mx <> mn ->
         importance_scaler o o = Ok (ones (length o)))
  /\ (forall (c : Qc) (n : nat),
         importance_scaler (repeat (Fin c) (S n)) (repeat (Fin c) (S n))
         = Ok (repeat NaN (S n))).
Proof.
  split; [|split].
  - intros. now apply importance_scaler_unfold.
  - intros o mx mn Hf Hmx Hmn Hne.
    rewrite (@importance_scaler_unfold o o mx mn eq_refl Hmx Hmn).
    destruct o as [|x o]; [discriminate|].
    inversion Hf as [|? ? Hx Hf']; subst.
    destruct x as [q| | |]; try contradiction.
    simpl in Hmx, Hmn.
    destruct (@py_max_finite o q Hf') as [a Ha].
    destruct (@py_min_finite o q Hf') as [b Hb].
    rewrite Ha in Hmx. rewrite Hb in Hmn.
    inversion Hmx; inversion Hmn; subst.
    rewrite row_scales_identical; [reflexivity|exact Hf|congruence].
  - intros c n.
    rewrite (@importance_scaler_unfold (repeat (Fin c) (S n))
               (repeat (Fin c) (S n)) (Fin c) (Fin c) eq_refl).
    + rewrite row_scales_constant, existsb_repeat_NaN. reflexivity.
    + simpl. f_equal. apply py_max_repeat.
    + simpl. f_equal. apply py_min_repeat.
Qed.

(** The uniform weights are returned although only one of the two
    scales is zero; and they are returned for a perturbation identical
    to the original on a feature that is not constant. *)
Lemma importance_scaler_any_zero_witness :
  importance_scaler [of_Z 0; of_Z 1] [of_Z 0; of_Z 0] =
  Ok (if existsb (fun s => neqb s zero)
           (row_scales (of_Z 1) (of_Z 0) [of_Z 0; of_Z 1] [of_Z 0; of_Z 0])
      then ones 2
      else row_scales (of_Z 1) (of_Z 0) [of_Z 0; of_Z 1] [of_Z 0; of_Z 0])
  /\ importance_scaler [of_Z 0; of_Z 1; of_Z 3] [of_Z 0; of_Z 1; of_Z 3]
     = Ok (ones 3).
Proof.
  split.
  - apply (proj1 importance_scaler_any_zero
             [of_Z 0; of_Z 1] [of_Z 0; of_Z 0] (of_Z 1) (of_Z 0));
      reflexivity.
  - apply (proj1 (proj2 importance_scaler_any_zero)
             [of_Z 0; of_Z 1; of_Z 3] (of_Z 3) (of_Z 0)).
    + repeat constructor.
    + reflexivity.
    + reflexivity.
    + intros H.
      apply (f_equal (fun v => match v with
                               | Fin q => Qnum (this q)
                               | _ => 0%Z
                               end)) in H.
      vm_compute in H. discriminate.
Defined.

(** C7 as stated fails.  With original [0; 1] and perturbed [0; 0] the
    scales are [0; 1]: not every scale is zero, the specification keeps
    the scales, the code returns [1; 1].  And on the constant feature
    [1; 1] the code returns NaN scales. *)
Lemma importance_scaler_spec_counterexample :
  importance_scaler [of_Z 0; of_Z 1] [of_Z 0; of_Z 0]
    <> importance_scaler_spec [of_Z 0; of_Z 1] [of_Z 0; of_Z 0]
  /\ importance_scaler [of_Z 0; of_Z 1] [of_Z 0; of_Z 0] = Ok [one; one]
  /\ importance_scaler [of_Z 1; of_Z 1] [of_Z 1; of_Z 1] = Ok [NaN; NaN].
Proof.
  split; [|split].
  - intros H.
    apply (f_equal (fun r => match r with
                             | Ok (Fin q :: _) => Qnum (this q)
                             | _ => 0%Z
                             end)) in H.
    vm_compute in H. discriminate.
  - reflexivity.
  - reflexivity.
Qed.

End ScaleEstimator.

(* ================================================================== *)
(** * The method tag *)
(* ================================================================== *)

Section MethodTag.

(** C8, as the code has it.  For every method string other than
    'output-variance' and 'conditional-permutation', computing an
    importance fails with a KeyError whose message is the fixed text
    "Unrecongized method for computing feature_importance: " followed
    by the rejected method string. *)
Theorem compute_importance_unrecognized_method :
  forall (new_predictions original_predictions : ndarray)
         (original_x perturbed_x : list num)
         (training_labels : option ndarray) (method : string)
         (scaled : bool) (scorer : Scorer),
    method <> "output-variance" ->
    method <> "conditional-permutation" ->
    compute_importance new_predictions original_predictions original_x
      perturbed_x training_labels method scaled scorer
    = Raise (KeyError
        (String.append "Unrecongized method for computing feature_importance: "
           method)).
Proof.
  intros np op ox px tl method scaled scorer H1 H2.
  unfold compute_importance.
  destruct (String.eqb_spec method "output-variance"); [contradiction|].
  destruct (String.eqb_spec method "conditional-permutation"); [contradiction|].
  reflexivity.
Qed.

Lemma compute_importance_unrecognized_method_witness :
  compute_importance (Arr1 [of_Z 1]) (Arr1 [of_Z 2]) [of_Z 0] [of_Z 1]
    None "gini" false Example.mae
  = Raise (KeyError
      "Unrecongized method for computing feature_importance: gini").
Proof.
  apply (compute_importance_unrecognized_method
           (Arr1 [of_Z 1]) (Arr1 [of_Z 2]) [of_Z 0] [of_Z 1]
           None false Example.mae (method := "gini"));
    discriminate.
Defined.

(** C8 as stated fails: for the method "gini" the error message names
    neither of the two valid methods. *)
Lemma unrecognized_method_message_counterexample :
  exists e,
    compute_importance (Arr1 [of_Z 1]) (Arr1 [of_Z 2]) [of_Z 0] [of_Z 1]
      None "gini" false Example.mae = Raise e
    /\ names_valid_methods (message e) = false
    /\ mentions "output-variance" (message e) = false
    /\ mentions "conditional-permutation" (message e) = false.
Proof.
  eexists. split; [reflexivity|]. repeat split; reflexivity.
Qed.

End MethodTag.

(* ================================================================== *)
(** * The two importance methods *)
(* ================================================================== *)

Section OutputVariance.

Local Open Scope result_scope.

Lemma concat_newaxis (v : list num) : List.concat (newaxis v) = v.
Proof.
  unfold newaxis. induction v as [|x v IH]; simpl; [reflexivity|].
  now rewrite IH.
Qed.

Lemma sum_axis1_newaxis (v : list num) : sum_axis1 (newaxis v) = v.
Proof.
  unfold sum_axis1, newaxis. induction v as [|x v IH]; [reflexivity|].
  cbn [map]. rewrite IH, nsum_singleton. reflexivity.
Qed.

(** C2.  With method output-variance and scaling disabled the
    importance is the mean absolute difference between the perturbed
    and the baseline predictions; with scaling enabled the absolute
    elementwise differences are summed across the extra dimension of
    the predictions (when there is one), each row's result is
    multiplied by that row's scale factor, and the importance is the
    mean of these weighted values. *)
Theorem output_variance_formula :
  (forall (new_predictions original_predictions : ndarray)
          (original_x perturbed_x : list num),
      _compute_importance_via_output_variance new_predictions
        original_predictions original_x perturbed_x false
      = mean_absolute_difference new_predictions original_predictions)
  /\ (forall (new_predictions original_predictions : ndarray)
             (original_x perturbed_x scales : list num),
         importance_scaler original_x perturbed_x = Ok scales ->
         _compute_importance_via_output_variance new_predictions
           original_predictions original_x perturbed_x true
         = scaled_mean_absolute_difference new_predictions
             original_predictions scales).
Proof.
  split.
  - intros [u|m] [v|n] ox px;
      unfold _compute_importance_via_output_variance,
             mean_absolute_difference, abs_diff; try reflexivity.
    + destruct (zip_with _ u v) as [d|e]; cbn [rbind]; [|reflexivity].
      unfold np_mean. now rewrite concat_newaxis.
    + destruct (zip_with2 _ m n) as [d|e]; cbn [rbind]; reflexivity.
  - intros [u|m] [v|n] ox px scales Hs;
      unfold _compute_importance_via_output_variance,
             scaled_mean_absolute_difference, row_differences, abs_diff;
      try reflexivity.
    + destruct (zip_with _ u v) as [d|e]; cbn [rbind]; [|reflexivity].
      rewrite Hs. cbn [rbind]. now rewrite sum_axis1_newaxis.
    + destruct (zip_with2 _ m n) as [d|e]; cbn [rbind]; [|reflexivity].
      rewrite Hs. cbn [rbind]. reflexivity.
Qed.

(** Two rows of two-class predictions, scale factors 1/2 and 1. *)
Lemma output_variance_formula_witness :
  _compute_importance_via_output_variance
    (Arr2 [[of_Z 1; of_Z 0]; [of_Z 0; of_Z 1]])
    (Arr2 [[of_Z 0; of_Z 1]; [of_Z 0; of_Z 1]])
    [of_Z 0; of_Z 2] [of_Z 1; of_Z 0] true
  = scaled_mean_absolute_difference
      (Arr2 [[of_Z 1; of_Z 0]; [of_Z 0; of_Z 1]])
      (Arr2 [[of_Z 0; of_Z 1]; [of_Z 0; of_Z 1]])
      [frac 1 2; of_Z 1].
Proof.
  apply (proj2 output_variance_formula).
  num_refl.
Defined.

End OutputVariance.

Section ConditionalPermutation.

Local Open Scope Qc_scope.
Local Open Scope result_scope.

Lemma score_degradation_nonneg (t : scorer_type) (b a : Qc) :
  Q2Qc 0 <= score_degradation t b a.
Proof.
  unfold score_degradation, Qc_max.
  destruct (Qc_ltb _ _) eqn:E.
  - apply Qc_ltb_lt in E. now apply Qclt_le_weak.
  - apply Qcle_refl.
Qed.

Lemma clamp_formula (x : Qc) :
  nabs (py_max2 (Fin x) (of_Z 0)) = Fin (Qc_max (Q2Qc 0) x).
Proof.
  unfold py_max2, Qc_max, of_Z.
  change (Q2Qc (inject_Z 0)) with (Q2Qc 0).
  destruct (ngtb (Fin (Q2Qc 0)) (Fin x)) eqn:G.
  - apply ngtb_Fin in G.
    assert (L : Qc_ltb (Q2Qc 0) x = false).
    { apply Qc_ltb_ge. now apply Qclt_le_weak. }
    rewrite L. simpl. f_equal. apply Qcabs_pos, Qcle_refl.
  - assert (P : Q2Qc 0 <= x).
    { apply Qcnot_lt_le. intros L. apply ngtb_Fin in L. congruence. }
    simpl. f_equal. rewrite Qcabs_pos by exact P.
    destruct (Qc_ltb (Q2Qc 0) x) eqn:L; [reflexivity|].
    apply Qc_ltb_ge in L. now apply Qcle_antisym.
Qed.

(** What the estimator returns in terms of the change in score. *)
Lemma conditional_permutation_unfold
  (new_predictions original_predictions : ndarray)
  (training_labels : option ndarray) (original_x perturbed_x : list num)
  (scorer : Scorer) (scaled : bool) (weights : option (list num))
  (score_before score_after : num) :
  sample_weight scaled original_x perturbed_x = Ok weights ->
  score scorer training_labels original_predictions weights
    = Ok score_before ->
  score scorer training_labels new_predictions weights = Ok score_after ->
  _compute_importance_via_conditional_permutation new_predictions
    original_predictions training_labels original_x perturbed_x scorer scaled
  = Ok (nabs (py_max2 (nmul (nsub score_before score_after)
                            (Fin (direction (stype scorer))))
                      (of_Z 0))).
Proof.
  intros Hw Hb Ha.
  unfold _compute_importance_via_conditional_permutation.
  unfold sample_weight in Hw. rewrite Hw. cbn [rbind].
  rewrite Ha, Hb. cbn [rbind].
  destruct (stype scorer); reflexivity.
Qed.

Lemma nge_zero_iff (q : Qc) : nge (Fin q) zero <-> Q2Qc 0 <= q.
Proof.
  unfold nge, zero. cbn [ncompare]. split.
  - destruct (q ?= Q2Qc 0) eqn:E; try contradiction; intros _.
    + apply Qceq_alt in E. subst. apply Qcle_refl.
    + apply Qccompare_Gt in E. now apply Qclt_le_weak.
  - intros H. destruct (q ?= Q2Qc 0) eqn:E; auto.
    apply Qclt_alt in E. exact (Qcle_not_lt _ _ H E).
Qed.

(** C3, as the code has it.  With method conditional-permutation the
    importance is abs(max(change, 0)) for
    change = direction * (score_before - score_after), where
    score_before is the scorer on (labels, baseline predictions),
    score_after the scorer on (labels, perturbed predictions), both
    with the same optional per-row scale factors, and direction is +1
    for an increasing scorer and -1 for a decreasing one.  For finite
    scores this is max(0, direction * (score_before - score_after)): it
    is never negative and a measured improvement contributes exactly 0.
    Whenever the change is not NaN the result is at least zero: the
    change itself when that is at least zero, and 0 otherwise.  When the
    change is NaN, the result is NaN. *)
Theorem conditional_permutation_formula :
  forall (new_predictions original_predictions : ndarray)
         (training_labels : option ndarray)
         (original_x perturbed_x : list num) (scorer : Scorer)
         (scaled : bool) (weights : option (list num))
         (score_before score_after : num),
    let importance :=
      _compute_importance_via_conditional_permutation new_predictions
        original_predictions training_labels original_x perturbed_x
        scorer scaled in
    let change := nmul (nsub score_before score_after)
                       (Fin (direction (stype scorer))) in
    sample_weight scaled original_x perturbed_x = Ok weights ->
    score scorer training_labels original_predictions weights
      = Ok score_before ->
    score scorer training_labels new_predictions weights
      = Ok score_after ->
    (forall before after : Qc,
        score_before = Fin before -> score_after = Fin after ->
        importance
        = Ok (Fin (score_degradation (stype scorer) before after))
        /\ Q2Qc 0 <= score_degradation (stype scorer) before after
        /\ (direction (stype scorer) * (before - after) <= Q2Qc 0 ->
            importance = Ok zero))
    /\ (change <> NaN ->
        exists v, importance = Ok v
                  /\ nge v zero
                  /\ (nge change zero -> v = change)
                  /\ (~ nge change zero -> v = zero))
    /\ (change = NaN -> importance = Ok NaN).
Proof.
  intros np op tl ox px scorer scaled w sb sa importance change Hw Hb Ha.
  assert (E : importance = Ok (nabs (py_max2 change (of_Z 0))))
    by exact (conditional_permutation_unfold np op tl ox px scorer scaled
                Hw Hb Ha).
  split; [|split].
  - intros b a -> ->.
    assert (E' : importance = Ok (Fin (score_degradation (stype scorer) b a))).
    { rewrite E. unfold change. cbn [nsub nopp nadd nmul].
      rewrite clamp_formula. do 2 f_equal.
      unfold score_degradation. f_equal. ring. }
    split; [exact E'|]. split; [apply score_degradation_nonneg|].
    intros Himp. rewrite E'. unfold zero. do 2 f_equal.
    unfold score_degradation, Qc_max.
    destruct (Qc_ltb _ _) eqn:L; [|reflexivity].
    apply Qc_ltb_lt in L. exfalso. exact (Qcle_not_lt _ _ Himp L).
  - intros Hn. rewrite E. clear E.
    destruct change as [q| | |]; [| | |congruence].
    + rewrite clamp_formula. eexists. split; [reflexivity|].
      unfold Qc_max. destruct (Qc_ltb (Q2Qc 0) q) eqn:L.
      * apply Qc_ltb_lt, Qclt_le_weak in L. split; [|split].
        -- now apply nge_zero_iff.
        -- reflexivity.
        -- intros N. exfalso. now apply N, nge_zero_iff.
      * apply Qc_ltb_ge in L. split; [|split].
        -- apply nge_zero_iff, Qcle_refl.
        -- intros P. apply nge_zero_iff in P. f_equal.
           now apply Qcle_antisym.
        -- reflexivity.
    + exists PInf. split; [reflexivity|]. split; [exact I|].
      split; [reflexivity|]. intros N. exfalso. now apply N.
    + exists zero. split; [num_refl|]. split; [apply nge_zero_iff, Qcle_refl|].
      split; [intros []|reflexivity].
  - intros Hn. rewrite E, Hn. reflexivity.
Qed.

(** Two settings.  Mean absolute error against the labels [0; 3; 9]:
    6 before the perturbation and 2 after it; the scorer is "lower is
    better", so the improvement counts for nothing.  And a constant
    column with scaling: the weights are NaN, and so are both scores,
    the change and the importance. *)
Lemma conditional_permutation_formula_witness :
  (_compute_importance_via_conditional_permutation
     (Arr1 [of_Z 3; of_Z 0; of_Z 9]) (Arr1 [of_Z 9; of_Z 3; of_Z 0])
     (Some (Arr1 [of_Z 0; of_Z 3; of_Z 9]))
     [of_Z 0; of_Z 1; of_Z 3] [of_Z 1; of_Z 3; of_Z 0] Example.mae true
   = Ok (Fin (score_degradation decreasing
                (Q2Qc (inject_Z 6)) (Q2Qc (inject_Z 2))))
   /\ Q2Qc 0 <= score_degradation decreasing
                  (Q2Qc (inject_Z 6)) (Q2Qc (inject_Z 2))
   /\ _compute_importance_via_conditional_permutation
        (Arr1 [of_Z 3; of_Z 0; of_Z 9]) (Arr1 [of_Z 9; of_Z 3; of_Z 0])
        (Some (Arr1 [of_Z 0; of_Z 3; of_Z 9]))
        [of_Z 0; of_Z 1; of_Z 3] [of_Z 1; of_Z 3; of_Z 0] Example.mae true
      = Ok zero)
  /\ (exists v,
        _compute_importance_via_conditional_permutation
          (Arr1 [of_Z 3; of_Z 0; of_Z 9]) (Arr1 [of_Z 9; of_Z 3; of_Z 0])
          (Some (Arr1 [of_Z 0; of_Z 3; of_Z 9]))
          [of_Z 0; of_Z 1; of_Z 3] [of_Z 1; of_Z 3; of_Z 0] Example.mae true
        = Ok v
        /\ nge v zero)
  /\ _compute_importance_via_conditional_permutation
       (Arr1 [of_Z 9; of_Z 3; of_Z 0]) (Arr1 [of_Z 9; of_Z 3; of_Z 0])
       (Some (Arr1 [of_Z 0; of_Z 3; of_Z 9]))
       [of_Z 5; of_Z 5; of_Z 5] [of_Z 5; of_Z 5; of_Z 5]
       Example.weighted_mae true
     = Ok NaN.
Proof.
  destruct (@conditional_permutation_formula
              (Arr1 [of_Z 3; of_Z 0; of_Z 9]) (Arr1 [of_Z 9; of_Z 3; of_Z 0])
              (Some (Arr1 [of_Z 0; of_Z 3; of_Z 9]))
              [of_Z 0; of_Z 1; of_Z 3] [of_Z 1; of_Z 3; of_Z 0] Example.mae
              true (Some [frac 1 3; frac 2 3; of_Z 1])
              (Fin (Q2Qc (inject_Z 6))) (Fin (Q2Qc (inject_Z 2))))
    as (H1 & H2 & _); [num_refl | num_refl | num_refl |].
  destruct (H1 _ _ eq_refl eq_refl) as (F1 & F2 & F3).
  split; [|split].
  - split; [exact F1|]. split; [exact F2|].
    apply F3. vm_compute. discriminate.
  - destruct H2 as (v & Hv & Hpos & _); [vm_compute; discriminate|].
    exists v. split; [exact Hv|exact Hpos].
  - apply (proj2 (proj2
      (@conditional_permutation_formula
         (Arr1 [of_Z 9; of_Z 3; of_Z 0]) (Arr1 [of_Z 9; of_Z 3; of_Z 0])
         (Some (Arr1 [of_Z 0; of_Z 3; of_Z 9]))
         [of_Z 5; of_Z 5; of_Z 5] [of_Z 5; of_Z 5; of_Z 5]
         Example.weighted_mae true (Some [NaN; NaN; NaN]) NaN NaN
         ltac:(num_refl) ltac:(num_refl) ltac:(num_refl)))).
    reflexivity.
Defined.

(** C3 as stated fails: the result is not always non-negative.  A
    constant column [5; 5; 5] is perturbed into itself, so the
    predictions do not change; with scaling the scale factors are
    0/0 = NaN for every row, the weighted mean absolute error is NaN
    before and after, and the importance is abs(max(NaN, 0)) = NaN,
    which is not at least zero. *)
Lemma conditional_permutation_nan_counterexample :
  let column := [of_Z 5; of_Z 5; of_Z 5] in
  let predictions := Arr1 [of_Z 9; of_Z 3; of_Z 0] in
  let labels := Some (Arr1 [of_Z 0; of_Z 3; of_Z 9]) in
  importance_scaler column column = Ok [NaN; NaN; NaN]
  /\ score Example.weighted_mae labels predictions (Some [NaN; NaN; NaN])
     = Ok NaN
  /\ _compute_importance_via_conditional_permutation predictions predictions
       labels column column Example.weighted_mae true
     = Ok NaN
  /\ ~ nge NaN zero.
Proof.
  cbv zeta. repeat split; intros [].
Qed.

End ConditionalPermutation.

(* ================================================================== *)
(** * Runs: results and traces *)
(* ================================================================== *)

Section Runs.

Local Open Scope run_scope.

Lemma snd_bind {A B} (m : M A) (k : A -> M B) :
  snd (bind m k) =
  match snd m with
  | Ok a => snd (k a)
  | Raise e => Raise e
  end.
Proof.
  destruct m as [t [a|e]]; simpl; [|reflexivity].
  now destruct (k a).
Qed.

Lemma fst_bind {A B} (m : M A) (k : A -> M B) :
  fst (bind m k) =
  fst m ++ match snd m with
           | Ok a => fst (k a)
           | Raise _ => []
           end.
Proof.
  destruct m as [t [a|e]]; simpl.
  - now destruct (k a).
  - now rewrite app_nil_r.
Qed.

Lemma bind_Forall {A B} (P : event -> Prop) (m : M A) (k : A -> M B) :
  Forall P (fst m) -> (forall a, Forall P (fst (k a))) ->
  Forall P (fst (bind m k)).
Proof.
  intros Hm Hk. rewrite fst_bind. apply Forall_app. split; [exact Hm|].
  destruct (snd m); [apply Hk | constructor].
Qed.

Lemma consume_result (pb : bool) (stream : list (result dict)) :
  snd (consume pb stream) = sequence stream.
Proof.
  induction stream as [|r rest IH]; [reflexivity|].
  cbn [consume sequence]. rewrite snd_bind. cbn [lift snd].
  destruct r as [d|e]; cbn [rbind]; [|reflexivity].
  rewrite snd_bind, snd_bind, IH.
  destruct pb; cbn [emit ret snd]; now destruct (sequence rest).
Qed.

Lemma run_local_result (pb : bool) (f : fid -> result dict) (args : list fid) :
  snd (run_local pb f args) = sequential_results f args.
Proof.
  unfold sequential_results.
  induction args as [|a rest IH]; [reflexivity|].
  cbn [run_local map sequence]. rewrite snd_bind. cbn [emit snd].
  rewrite snd_bind. cbn [lift snd].
  destruct (f a) as [d|e]; cbn [rbind]; [|reflexivity].
  rewrite snd_bind, snd_bind, IH.
  destruct pb; cbn [emit ret snd]; now destruct (sequence (map f rest)).
Qed.

Lemma sequential_rerun_result (pb : bool) (f : fid -> result dict)
  (args : list fid) :
  snd (sequential_rerun pb f args) = sequential_results f args.
Proof.
  unfold sequential_rerun. rewrite snd_bind. cbn [emit snd].
  apply run_local_result.
Qed.

(** A pool that breaks never delivers the complete list of results. *)
Lemma sequence_fault (rs : list (result dict)) (k : nat) (e : exn) :
  exists e', sequence (firstn k rs ++ [Raise e]) = Raise e'.
Proof.
  revert k. induction rs as [|r rs IH]; intros k.
  - rewrite firstn_nil. simpl. now exists e.
  - destruct k as [|k]; simpl; [now exists e|].
    destruct r as [d|e0]; simpl; [|now exists e0].
    destruct (IH k) as [e' E]. rewrite E. now exists e'.
Qed.

Lemma sequential_results_ok (f : fid -> result dict) (args : list fid)
  (ds : list dict) :
  sequential_results f args = Ok ds ->
  Forall2 (fun a d => f a = Ok d) args ds.
Proof.
  unfold sequential_results. revert ds.
  induction args as [|a args IH]; intros ds H; cbn [map sequence] in H.
  - inversion H. constructor.
  - destruct (f a) as [d|e] eqn:Ea; cbn [rbind] in H; [|discriminate].
    destruct (sequence (map f args)) as [ds'|e'] eqn:E; cbn [rbind] in H;
      [|discriminate].
    inversion H; subst. constructor; [exact Ea|]. now apply IH.
Qed.

Lemma pool_stream_ok (fault : option (nat * exn)) (f : fid -> result dict)
  (args : list fid) (ds : list dict) :
  sequence (pool_stream fault (map f args)) = Ok ds ->
  sequential_results f args = Ok ds.
Proof.
  destruct fault as [[k e]|]; cbn [pool_stream]; intros H; [|exact H].
  destruct (sequence_fault (map f args) k e) as [e' E]. congruence.
Qed.

(** The three ways [dispatch] can go. *)
Lemma dispatch_cases (self : Interpretation) (n_jobs : option Z) (pb : bool)
  (f : fid -> result dict) (args : list fid) :
  let attempt := parallel_attempt self n_jobs pb f args in
  let rerun := sequential_rerun pb f args in
  dispatch self n_jobs pb f args =
  match snd attempt with
  | Ok ds => (fst attempt ++ fst release_pool, Ok ds)
  | Raise _ => ((fst attempt ++ fst rerun) ++ fst release_pool, snd rerun)
  end.
Proof.
  intros attempt rerun. unfold dispatch, try_except_finally.
  fold attempt. fold rerun.
  destruct attempt as [t [ds|e]]; simpl.
  - reflexivity.
  - destruct rerun as [t' r]. reflexivity.
Qed.

End Runs.

Section Orchestrator.

Local Open Scope run_scope.

Lemma check_filter_classes_cases (model : Model) (fc : option (list string)) :
  check_filter_classes model fc = ret tt
  \/ exists msg, check_filter_classes model fc = raise (AssertionError msg).
Proof.
  unfold check_filter_classes. destruct fc as [[|c l]|]; auto.
  destruct (forallb _ _); eauto.
Qed.

Lemma check_filter_classes_passes (model : Model) (fc : option (list string)) :
  passes_validation model fc -> check_filter_classes model fc = ret tt.
Proof.
  unfold passes_validation, check_filter_classes.
  destruct fc as [[|c l]|]; auto. intros H.
  replace (forallb _ (c :: l)) with true; [reflexivity|].
  symmetry. apply forallb_forall. intros x Hx.
  apply existsb_exists. exists x. split; [now apply H|apply String.eqb_refl].
Qed.

Lemma resolve_training_labels_cases (self : Interpretation) (method : string) :
  (exists l, resolve_training_labels self method = ret l)
  \/ exists msg,
      resolve_training_labels self method = raise (FeatureImportanceError msg).
Proof.
  unfold resolve_training_labels.
  destruct (String.eqb _ _); [|eauto].
  destruct (training_labels self); eauto.
Qed.

(** The baseline rows: the whole dataset when it has fewer than
    [n_samples] rows, a sample of [n_samples] rows otherwise. *)
Lemma choose_inputs_cases (self : Interpretation) (n_samples : Z) :
  ((Z.of_nat (n_rows (data_set self)) < n_samples)%Z
   /\ choose_inputs self n_samples = ([], Ok (data (data_set self))))
  \/ ((n_samples <= Z.of_nat (n_rows (data_set self)))%Z
      /\ choose_inputs self n_samples
         = ([EvGenerateSample n_samples],
            generate_sample (data_set self) n_samples)).
Proof.
  unfold choose_inputs.
  destruct (Z.leb_spec n_samples (Z.of_nat (n_rows (data_set self)))).
  - right. split; [assumption|]. unfold bind, emit, lift.
    reflexivity.
  - left. split; [assumption|]. reflexivity.
Qed.

(** What a prelude that succeeds has done. *)
Lemma prelude_inv (self : Interpretation) (model : Model)
  (fc : option (list string)) (n_jobs : Z) (pb : bool) (n_samples : Z)
  (method : string) (inputs : Data) (preds : ndarray)
  (labels : option ndarray) :
  snd (prelude self model fc n_jobs pb n_samples method)
    = Ok (inputs, preds, labels) ->
  check_filter_classes model fc = ret tt
  /\ resolve_training_labels self method = ret labels
  /\ snd (choose_inputs self n_samples) = Ok inputs
  /\ predict model inputs = Ok preds
  /\ Pool (multiprocessing self) (resolve_n_jobs n_jobs) = Ok tt
  /\ fst (prelude self model fc n_jobs pb n_samples method)
     = fst (choose_inputs self n_samples)
       ++ [EvPredict inputs; EvPoolCreate (resolve_n_jobs n_jobs)]
       ++ progress_events self pb.
Proof.
  unfold prelude. intros H.
  destruct (check_filter_classes_cases model fc) as [Ec|[msg Ec]];
    rewrite Ec in *; [|discriminate].
  destruct (resolve_training_labels_cases self method) as [[l El]|[msg El]];
    rewrite El in *; [|discriminate].
  cbn [bind ret app] in *.
  destruct (choose_inputs self n_samples) as [tc [i|e]]; [|discriminate].
  cbn [bind emit lift app] in *.
  destruct (predict model i) as [p|e] eqn:Ep; [|simpl in H; discriminate].
  cbn [bind emit lift app] in *.
  destruct (Pool (multiprocessing self) (resolve_n_jobs n_jobs)) as [[]|e]
    eqn:Epool; [|simpl in H; discriminate].
  unfold progress_events.
  destruct pb; cbn [bind emit ret lift app fst snd] in *;
    inversion H; subst; repeat split; try reflexivity; try assumption;
    rewrite ?app_nil_r; reflexivity.
Qed.

Lemma prelude_events (self : Interpretation) (model : Model)
  (fc : option (list string)) (n_jobs : Z) (pb : bool) (n_samples : Z)
  (method : string) :
  Forall (fun ev => prelude_event ev = true
                    /\ (is_pool_create ev = true ->
                        ev = EvPoolCreate (resolve_n_jobs n_jobs)))
         (fst (prelude self model fc n_jobs pb n_samples method)).
Proof.
  unfold prelude.
  destruct (check_filter_classes_cases model fc) as [Ec|[msg Ec]];
    rewrite Ec; [|constructor].
  destruct (resolve_training_labels_cases self method) as [[l El]|[msg El]];
    rewrite El; [|constructor].
  cbn [bind ret app].
  assert (Hc : Forall (fun ev => prelude_event ev = true
                    /\ (is_pool_create ev = true ->
                        ev = EvPoolCreate (resolve_n_jobs n_jobs)))
                 (fst (choose_inputs self n_samples))).
  { destruct (choose_inputs_cases self n_samples) as [[_ E]|[_ E]];
      rewrite E; simpl; repeat constructor; discriminate. }
  destruct (choose_inputs self n_samples) as [tc [i|e]]; [|exact Hc].
  cbn [fst] in Hc. cbn [bind emit lift app].
  destruct (predict model i) as [p|e]; cbn [bind emit lift app fst].
  - destruct (Pool (multiprocessing self) (resolve_n_jobs n_jobs)) as [[]|e];
      cbn [bind emit lift app fst];
      [destruct pb; cbn [bind emit ret lift app fst]|];
      apply Forall_app; split; try exact Hc;
      repeat constructor; discriminate.
  - apply Forall_app; split; [exact Hc|]. repeat constructor; discriminate.
Qed.

Lemma consume_events (pb : bool) (stream : list (result dict)) :
  Forall (fun ev => dispatch_event ev = true /\ is_pool_map ev = false
                    /\ is_local_task ev = false)
         (fst (consume pb stream)).
Proof.
  induction stream as [|r rest IH]; [constructor|].
  cbn [consume]. apply bind_Forall; [constructor|]. intros d.
  apply bind_Forall; [destruct pb; repeat constructor|]. intros _.
  apply bind_Forall; [exact IH|]. intros ds. constructor.
Qed.

Lemma run_local_events (pb : bool) (f : fid -> result dict) (args : list fid) :
  Forall (fun ev => dispatch_event ev = true /\ is_pool_map ev = false)
         (fst (run_local pb f args)).
Proof.
  induction args as [|a rest IH]; [constructor|].
  cbn [run_local]. apply bind_Forall; [repeat constructor|]. intros _.
  apply bind_Forall; [constructor|]. intros d.
  apply bind_Forall; [destruct pb; repeat constructor|]. intros _.
  apply bind_Forall; [exact IH|]. intros ds. constructor.
Qed.

Lemma sequential_rerun_events (pb : bool) (f : fid -> result dict)
  (args : list fid) :
  Forall (fun ev => dispatch_event ev = true /\ is_pool_map ev = false)
         (fst (sequential_rerun pb f args)).
Proof.
  unfold sequential_rerun. apply bind_Forall; [repeat constructor|].
  intros _. apply run_local_events.
Qed.

Lemma parallel_attempt_events (self : Interpretation) (n_jobs : option Z)
  (pb : bool) (f : fid -> result dict) (args : list fid) :
  Forall (fun ev => dispatch_event ev = true)
         (fst (parallel_attempt self n_jobs pb f args)).
Proof.
  unfold parallel_attempt. destruct (option_Z_eqb n_jobs 1); [constructor|].
  apply bind_Forall; [repeat constructor|]. intros _.
  eapply Forall_impl; [|apply consume_events]. now intros ev [H _].
Qed.

Lemma parallel_attempt_no_local_task (self : Interpretation)
  (n_jobs : option Z) (pb : bool) (f : fid -> result dict) (args : list fid) :
  Forall (fun ev => is_local_task ev = false)
         (fst (parallel_attempt self n_jobs pb f args)).
Proof.
  unfold parallel_attempt. destruct (option_Z_eqb n_jobs 1); [constructor|].
  apply bind_Forall; [repeat constructor|]. intros _.
  eapply Forall_impl; [|apply consume_events]. now intros ev (_ & _ & H).
Qed.

Lemma filter_none (P : event -> bool) (l : list event) :
  Forall (fun ev => P ev = false) l -> filter P l = [].
Proof.
  induction 1 as [|ev l H _ IH]; [reflexivity|].
  cbn [filter]. now rewrite H.
Qed.

(** The tasks run in the current process, when all of them succeed:
    every feature, in order. *)
Lemma run_local_tasks (pb : bool) (f : fid -> result dict) (args : list fid)
  (ds : list dict) :
  sequential_results f args = Ok ds ->
  filter is_local_task (fst (run_local pb f args)) = map EvLocalTask args.
Proof.
  unfold sequential_results. revert ds.
  induction args as [|a args IH]; intros ds H; [reflexivity|].
  cbn [map sequence] in H.
  destruct (f a) as [d|e] eqn:Ea; cbn [rbind] in H; [|discriminate].
  destruct (sequence (map f args)) as [ds'|e'] eqn:E; cbn [rbind] in H;
    [|discriminate].
  cbn [run_local map]. rewrite fst_bind. cbn [emit fst snd app filter is_local_task].
  f_equal. rewrite fst_bind, Ea. cbn [lift fst snd app].
  rewrite fst_bind, filter_app.
  destruct pb; cbn [emit ret fst snd filter is_local_task app];
    rewrite fst_bind, filter_app, (IH ds' eq_refl);
    rewrite run_local_result; unfold sequential_results; rewrite E;
    cbn [ret fst filter]; now rewrite app_nil_r.
Qed.

Lemma dispatch_events (self : Interpretation) (n_jobs : option Z)
  (pb : bool) (f : fid -> result dict) (args : list fid) :
  Forall (fun ev => dispatch_event ev = true)
         (fst (dispatch self n_jobs pb f args)).
Proof.
  rewrite dispatch_cases.
  pose proof (parallel_attempt_events self n_jobs pb f args) as Ha.
  assert (Hr : Forall (fun ev => dispatch_event ev = true)
                 (fst (sequential_rerun pb f args))).
  { eapply Forall_impl; [|apply sequential_rerun_events]. now intros ev [H _]. }
  destruct (snd (parallel_attempt self n_jobs pb f args)); cbn [fst];
    repeat (apply Forall_app; split); auto; repeat constructor.
Qed.

Lemma finish_events (asc : bool) (d : dict) :
  Forall (fun ev => finish_event ev = true) (fst (finish asc d)).
Proof.
  unfold finish. destruct (negb _).
  - repeat constructor.
  - apply bind_Forall; [repeat constructor|]. intros _. constructor.
Qed.

End Orchestrator.

Section WholeRun.

Local Open Scope run_scope.

Variables (self : Interpretation) (model : Model) (ascending : bool)
          (filter_classes : option (list string)) (n_jobs : Z)
          (progressbar : bool) (n_samples : Z) (method scorer : string)
          (use_scaling : bool).

Let the_prelude :=
  prelude self model filter_classes n_jobs progressbar n_samples method.
Let the_raw :=
  raw_importances self model filter_classes n_jobs progressbar n_samples
    method use_scaling.
Let the_run :=
  feature_importance self model ascending filter_classes n_jobs progressbar
    n_samples method scorer use_scaling.

Lemma raw_after_prelude (inputs : Data) (preds : ndarray)
  (labels : option ndarray) :
  snd the_prelude = Ok (inputs, preds, labels) ->
  let d := dispatch self (resolve_n_jobs n_jobs) progressbar
             (fi_func self model inputs preds labels method use_scaling)
             (feature_ids (data_set self)) in
  the_raw = (fst the_prelude ++ fst d,
             match snd d with
             | Ok ds => Ok (merge ds)
             | Raise e => Raise e
             end).
Proof.
  intros H d. unfold the_raw, raw_importances. fold the_prelude.
  destruct the_prelude as [t r]. cbn [snd] in H. subst r.
  cbn [bind fst]. fold d. destruct d as [td [ds|e]]; cbn [bind ret fst snd].
  - now rewrite app_nil_r.
  - reflexivity.
Qed.

Lemma raw_prelude_raises (e : exn) :
  snd the_prelude = Raise e -> the_raw = (fst the_prelude, Raise e).
Proof.
  intros H. unfold the_raw, raw_importances. fold the_prelude.
  destruct the_prelude as [t r]. cbn [snd] in H. subst r. reflexivity.
Qed.

Lemma raw_ok_inv (raw : dict) :
  snd the_raw = Ok raw ->
  exists inputs preds labels ds,
    snd the_prelude = Ok (inputs, preds, labels)
    /\ snd (dispatch self (resolve_n_jobs n_jobs) progressbar
              (fi_func self model inputs preds labels method use_scaling)
              (feature_ids (data_set self))) = Ok ds
    /\ raw = merge ds.
Proof.
  intros H. destruct (snd the_prelude) as [[[inputs preds] labels]|e] eqn:Ep.
  - rewrite (raw_after_prelude Ep) in H. cbn [snd] in H.
    exists inputs, preds, labels.
    destruct (snd (dispatch _ _ _ _ _)) as [ds|e]; [|discriminate].
    exists ds. inversion H. auto.
  - rewrite (raw_prelude_raises Ep) in H. discriminate.
Qed.

(** Where an event of a run comes from. *)
Lemma run_event_origin (ev : event) :
  In ev (fst the_run) ->
  In ev (fst the_prelude)
  \/ (exists inputs preds labels,
         snd the_prelude = Ok (inputs, preds, labels)
         /\ In ev (fst (dispatch self (resolve_n_jobs n_jobs) progressbar
                          (fi_func self model inputs preds labels method
                             use_scaling)
                          (feature_ids (data_set self)))))
  \/ (exists raw, snd the_raw = Ok raw
                  /\ In ev (fst (finish ascending raw))).
Proof.
  unfold the_run, feature_importance. fold the_raw. rewrite fst_bind.
  intros H. apply in_app_or in H. destruct H as [H|H].
  - destruct (snd the_prelude) as [[[inputs preds] labels]|e] eqn:Ep.
    + rewrite (raw_after_prelude Ep) in H. cbn [fst] in H.
      apply in_app_or in H. destruct H as [H|H]; [now left|].
      right. left. now exists inputs, preds, labels.
    + rewrite (raw_prelude_raises Ep) in H. now left.
  - right. right. destruct (snd the_raw) as [raw|e]; [|contradiction].
    now exists raw.
Qed.

End WholeRun.

(* ================================================================== *)
(** * Worker count *)
(* ================================================================== *)

Section WorkerCount.

Lemma dispatch_forced_sequential (self : Interpretation) (pb : bool)
  (f : fid -> result dict) (args : list fid) :
  dispatch self (Some 1%Z) pb f args
  = (fst (sequential_rerun pb f args) ++ fst release_pool,
     sequential_results f args).
Proof.
  rewrite dispatch_cases. cbn [parallel_attempt option_Z_eqb Z.eqb Pos.eqb].
  cbn [raise fst snd app]. now rewrite sequential_rerun_result.
Qed.

(** C6, as the code has it.  A negative worker count ([n_jobs < 0])
    is resolved to a pool of unspecified size (all available
    parallelism).  A worker count of exactly 1 forces sequential
    execution: no task is handed to the pool, and the dispatch is the
    sequential run of every task in the current process followed by the
    release of the pool. *)
Theorem worker_count_resolution :
  forall (self : Interpretation) (model : Model) (ascending : bool)
         (filter_classes : option (list string)) (n_jobs : Z)
         (progressbar : bool) (n_samples : Z) (method scorer : string)
         (use_scaling : bool),
    let run := feature_importance self model ascending filter_classes
                 n_jobs progressbar n_samples method scorer use_scaling in
    ((n_jobs < 0)%Z ->
     forall p, In (EvPoolCreate p) (fst run) -> p = None)
    /\ (n_jobs = 1%Z ->
        (forall lazy, ~ In (EvPoolMap lazy) (fst run))
        /\ forall f args,
            dispatch self (resolve_n_jobs n_jobs) progressbar f args
            = (fst (sequential_rerun progressbar f args) ++ fst release_pool,
               sequential_results f args)).
Proof.
  intros self model asc fc n_jobs pb n_samples method scorer scaling run.
  split.
  - intros Hneg p Hin.
    apply run_event_origin in Hin.
    destruct Hin as [Hin|[(i & pr & l & _ & Hin)|(raw & _ & Hin)]].
    + pose proof (prelude_events self model fc n_jobs pb n_samples method) as F.
      rewrite Forall_forall in F. destruct (F _ Hin) as [_ E].
      specialize (E eq_refl). unfold resolve_n_jobs in E.
      apply Z.ltb_lt in Hneg. rewrite Hneg in E. congruence.
    + pose proof (dispatch_events self (resolve_n_jobs n_jobs) pb
                    (fi_func self model i pr l method scaling)
                    (feature_ids (data_set self))) as F.
      rewrite Forall_forall in F. specialize (F _ Hin). discriminate.
    + pose proof (finish_events asc raw) as F.
      rewrite Forall_forall in F. specialize (F _ Hin). discriminate.
  - intros ->. split.
    + intros lazy Hin.
      apply run_event_origin in Hin.
      destruct Hin as [Hin|[(i & pr & l & _ & Hin)|(raw & _ & Hin)]].
      * pose proof (prelude_events self model fc 1 pb n_samples method) as F.
        rewrite Forall_forall in F. destruct (F _ Hin) as [E _]. discriminate.
      * change (resolve_n_jobs 1) with (Some 1%Z) in Hin.
        rewrite dispatch_forced_sequential in Hin. cbn [fst] in Hin.
        apply in_app_or in Hin. destruct Hin as [Hin|Hin].
        -- pose proof (sequential_rerun_events pb
                         (fi_func self model i pr l method scaling)
                         (feature_ids (data_set self))) as F.
           rewrite Forall_forall in F. destruct (F _ Hin) as [_ E].
           discriminate.
        -- simpl in Hin. intuition discriminate.
      * pose proof (finish_events asc raw) as F.
        rewrite Forall_forall in F. specialize (F _ Hin). discriminate.
    + intros f args. apply dispatch_forced_sequential.
Qed.

Lemma worker_count_resolution_witness :
  (let run := feature_importance (Example.interp Example.healthy_pool)
                Example.model true None (-1) true 5000 "output-variance"
                "default" false in
   forall p, In (EvPoolCreate p) (fst run) -> p = None)
  /\ (let run := feature_importance (Example.interp Example.healthy_pool)
                   Example.model true None 1 true 5000 "output-variance"
                   "default" false in
      forall lazy, ~ In (EvPoolMap lazy) (fst run)).
Proof.
  split.
  - intros run.
    apply (proj1 (worker_count_resolution
                    (Example.interp Example.healthy_pool)
                    Example.model true None (-1) true 5000 "output-variance"
                    "default" false)).
    reflexivity.
  - intros run.
    apply (proj2 (worker_count_resolution
                    (Example.interp Example.healthy_pool)
                    Example.model true None 1 true 5000 "output-variance"
                    "default" false)).
    reflexivity.
Defined.

(** C6 as stated fails twice.  With [n_jobs = 0] the pool is asked for
    0 processes, not for all of them (and [multiprocessing] refuses).
    With [n_jobs = 1] a pool of one process is created all the same. *)
Lemma worker_count_counterexample :
  let run0 := feature_importance (Example.interp Example.strict_pool)
                Example.model true None 0 false 5000 "output-variance"
                "default" false in
  let run1 := feature_importance (Example.interp Example.healthy_pool)
                Example.model true None 1 false 5000 "output-variance"
                "default" false in
  In (EvPoolCreate (Some 0%Z)) (fst run0)
  /\ ~ In (EvPoolCreate None) (fst run0)
  /\ snd run0 = Raise (ValueError "Number of processes must be at least 1")
  /\ In (EvPoolCreate (Some 1%Z)) (fst run1).
Proof.
  cbv zeta. repeat split.
  - vm_compute. tauto.
  - intros H. vm_compute in H. intuition discriminate.
  - vm_compute. tauto.
Qed.

End WorkerCount.

(* ================================================================== *)
(** * Fallback to sequential execution *)
(* ================================================================== *)

Section Fallback.

Lemma sequential_first_failure (task : fid -> result dict)
  (pre post : list fid) (a : fid) (e : exn) :
  Forall (fun x => exists d, task x = Ok d) pre ->
  task a = Raise e ->
  sequential_results task (pre ++ a :: post) = Raise e.
Proof.
  unfold sequential_results. intros Hpre Ha.
  induction Hpre as [|x pre [d Hx] _ IH]; cbn [app map sequence].
  - now rewrite Ha.
  - rewrite Hx. cbn [rbind]. now rewrite IH.
Qed.

Lemma filter_local_prelude (self : Interpretation) (model : Model)
  (fc : option (list string)) (n_jobs : Z) (pb : bool) (n_samples : Z)
  (method : string) :
  filter is_local_task (fst (prelude self model fc n_jobs pb n_samples method))
  = [].
Proof.
  apply filter_none.
  eapply Forall_impl; [|apply prelude_events].
  intros ev [H _]. now destruct ev.
Qed.

Lemma filter_local_finish (asc : bool) (d : dict) :
  filter is_local_task (fst (finish asc d)) = [].
Proof.
  apply filter_none.
  eapply Forall_impl; [|apply finish_events].
  intros ev H. now destruct ev.
Qed.

Lemma prelude_pool_fails (self : Interpretation) (model : Model)
  (fc : option (list string)) (n_jobs : Z) (pb : bool) (n_samples : Z)
  (method : string) (e : exn) :
  Pool (multiprocessing self) (resolve_n_jobs n_jobs) = Raise e ->
  snd (prelude self model fc n_jobs pb n_samples method) = Raise e
  \/ exists e',
       snd (prelude self model fc n_jobs pb n_samples method) = Raise e'
       /\ filter is_pool_create
            (fst (prelude self model fc n_jobs pb n_samples method)) = [].
Proof.
  intros HP. unfold prelude.
  destruct (check_filter_classes_cases model fc) as [Ec|[msg Ec]];
    rewrite Ec; [|right; eexists; split; reflexivity].
  destruct (resolve_training_labels_cases self method) as [[l El]|[msg El]];
    rewrite El; [|right; eexists; split; reflexivity].
  cbn [bind ret app].
  destruct (choose_inputs_cases self n_samples) as [[_ E]|[_ E]]; rewrite E.
  - cbn [bind emit lift app].
    destruct (predict model (data (data_set self))) as [p|e0];
      cbn [bind emit lift app];
      [|right; eexists; split; reflexivity].
    rewrite HP. now left.
  - destruct (generate_sample (data_set self) n_samples) as [i|e0];
      cbn [bind emit lift app];
      [|right; eexists; split; reflexivity].
    destruct (predict model i) as [p|e0]; cbn [bind emit lift app];
      [|right; eexists; split; reflexivity].
    rewrite HP. now left.
Qed.

(** C5, as the code has it.  Once the pool has been created, a failure
    of the parallel attempt (submission or execution, any exception)
    is not surfaced: whatever the attempt had delivered is dropped and
    the complete task set is run again in the current process.  The
    call then ends as that sequential run ends: with the normalized
    result when every task succeeds, and otherwise with the exception
    of the first task that fails.  A failure of the creation of the
    pool is not recovered: the call raises it (unless it had failed
    before reaching the pool) and no task is run in the current
    process. *)
Theorem pool_failure_falls_back :
  (forall (self : Interpretation) (model : Model) (ascending : bool)
         (filter_classes : option (list string)) (n_jobs : Z)
         (progressbar : bool) (n_samples : Z) (method scorer : string)
         (use_scaling : bool) (inputs : Data) (preds : ndarray)
         (labels : option ndarray) (e : exn),
    let task := fi_func self model inputs preds labels method use_scaling in
    let ids := feature_ids (data_set self) in
    let run := feature_importance self model ascending filter_classes
                 n_jobs progressbar n_samples method scorer use_scaling in
    snd (prelude self model filter_classes n_jobs progressbar n_samples method)
      = Ok (inputs, preds, labels) ->
    snd (parallel_attempt self (resolve_n_jobs n_jobs) progressbar task ids)
      = Raise e ->
    snd run = match sequential_results task ids with
              | Ok ds => snd (finish ascending (merge ds))
              | Raise e' => Raise e'
              end
    /\ (forall ds, sequential_results task ids = Ok ds ->
                   filter is_local_task (fst run) = map EvLocalTask ids)
    /\ (forall pre a post e',
           ids = pre ++ a :: post ->
           Forall (fun x => exists d, task x = Ok d) pre ->
           task a = Raise e' ->
           snd run = Raise e'))
  /\ (forall (self : Interpretation) (model : Model) (ascending : bool)
             (filter_classes : option (list string)) (n_jobs : Z)
             (progressbar : bool) (n_samples : Z) (method scorer : string)
             (use_scaling : bool) (e : exn),
         let run := feature_importance self model ascending filter_classes
                      n_jobs progressbar n_samples method scorer
                      use_scaling in
         Pool (multiprocessing self) (resolve_n_jobs n_jobs) = Raise e ->
         filter is_local_task (fst run) = []
         /\ (snd run = Raise e
             \/ exists e', snd run = Raise e'
                           /\ filter is_pool_create (fst run) = [])).
Proof.
  split.
  {
    intros self model asc fc n_jobs pb n_samples method scorer scaling
           inputs preds labels e task ids run Hp Ha.
    assert (Hd : dispatch self (resolve_n_jobs n_jobs) pb task ids
                 = ((fst (parallel_attempt self (resolve_n_jobs n_jobs) pb
                            task ids)
                     ++ fst (sequential_rerun pb task ids))
                    ++ fst release_pool,
                    sequential_results task ids)).
    { rewrite dispatch_cases. rewrite Ha.
      now rewrite sequential_rerun_result. }
    assert (Hraw : raw_importances self model fc n_jobs pb n_samples method
                     scaling
                   = (fst (prelude self model fc n_jobs pb n_samples method)
                      ++ fst (dispatch self (resolve_n_jobs n_jobs) pb task ids),
                      match sequential_results task ids with
                      | Ok ds => Ok (merge ds)
                      | Raise e' => Raise e'
                      end)).
    { rewrite (raw_after_prelude self model fc n_jobs pb n_samples method
                 scaling Hp).
      fold task. fold ids. now rewrite Hd. }
    assert (Hres : snd run = match sequential_results task ids with
                             | Ok ds => snd (finish asc (merge ds))
                             | Raise e' => Raise e'
                             end).
    { unfold run, feature_importance. rewrite snd_bind, Hraw. cbn [snd].
      now destruct (sequential_results task ids). }
    split; [exact Hres|]. split.
    - intros ds Hds. unfold run, feature_importance.
      rewrite fst_bind, Hraw, Hd, Hds. cbn [fst snd].
      rewrite !filter_app, filter_local_prelude, filter_local_finish.
      rewrite (filter_none is_local_task
                 (parallel_attempt_no_local_task self (resolve_n_jobs n_jobs)
                    pb task ids)).
      unfold sequential_rerun. rewrite fst_bind. cbn [emit fst snd app].
      cbn [filter is_local_task].
      rewrite (run_local_tasks pb task ids Hds).
      change (filter is_local_task (fst release_pool)) with (@nil event).
      now rewrite !app_nil_r.
    - intros pre a post e' Hids Hpre Hfail.
      rewrite Hres, Hids.
      now rewrite (@sequential_first_failure task pre post a e' Hpre Hfail). }
  intros self model asc fc n_jobs pb n_samples method scorer scaling e run HP.
  assert (Hrun : forall e', snd (prelude self model fc n_jobs pb n_samples
                                   method) = Raise e' ->
                   run = (fst (prelude self model fc n_jobs pb n_samples
                                 method), Raise e')).
  { intros e' He. unfold run, feature_importance.
    now rewrite (raw_prelude_raises self model fc n_jobs pb n_samples method
                   scaling He). }
  destruct (prelude_pool_fails self model fc n_jobs pb n_samples method HP)
    as [He|(e' & He & Hf)]; rewrite (Hrun _ He); cbn [fst snd].
  - split; [apply filter_local_prelude|now left].
  - split; [apply filter_local_prelude|]. right. now exists e'.
Qed.

(** The pool breaks on the second result; both tasks are run again in
    the current process and the call returns their normalized
    importances.  With an unknown method every task fails, in the pool
    and then in the current process, and the error of the first task
    reaches the caller. *)
Lemma pool_failure_falls_back_witness :
  (let self := Example.interp Example.broken_pool in
   let task := fi_func self Example.model Example.rows
                 Example.baseline_predictions None "output-variance" false in
   let run := feature_importance self Example.model true None (-1) true 5000
                "output-variance" "default" false in
   snd run = match sequential_results task ["a"; "b"] with
             | Ok ds => snd (finish true (merge ds))
             | Raise e' => Raise e'
             end
   /\ filter is_local_task (fst run) = [EvLocalTask "a"; EvLocalTask "b"])
  /\ snd (feature_importance (Example.interp Example.healthy_pool)
            Example.model true None (-1) true 5000 "gini" "default" false)
     = Raise (KeyError
                "Unrecongized method for computing feature_importance: gini")
  /\ filter is_local_task
       (fst (feature_importance (Example.interp Example.no_pool)
               Example.model true None 4 true 5000 "output-variance"
               "default" false)) = [].
Proof.
  split; [|split].
  - intros self task run.
    destruct (proj1 pool_failure_falls_back self Example.model true None
                (-1)%Z true 5000%Z "output-variance" "default" false
                Example.rows
                Example.baseline_predictions None (OtherError "PicklingError")
                eq_refl eq_refl) as (H1 & H2 & _).
    split; [exact H1|].
    destruct (sequential_results task ["a"; "b"]) as [ds|e'] eqn:E.
    + exact (H2 ds E).
    + vm_compute in E. discriminate.
  - destruct (proj1 pool_failure_falls_back
                (Example.interp Example.healthy_pool)
                Example.model true None (-1)%Z true 5000%Z "gini" "default"
                false Example.rows Example.baseline_predictions None
                (KeyError
                   "Unrecongized method for computing feature_importance: gini")
                eq_refl eq_refl) as (_ & _ & H3).
    apply (H3 [] "a" ["b"]).
    + reflexivity.
    + constructor.
    + reflexivity.
  - apply (proj2 pool_failure_falls_back (Example.interp Example.no_pool)
             Example.model true None 4%Z true 5000%Z "output-variance"
             "default" false (OtherError "OSError: cannot allocate memory")).
    reflexivity.
Defined.

(** C5 as stated fails for pool creation: when [Pool(...)] itself
    raises, the exception reaches the caller and no task is run in the
    current process, although every task would succeed there. *)
Lemma pool_creation_failure_counterexample :
  let self := Example.interp Example.no_pool in
  let task := fi_func self Example.model Example.rows
                Example.baseline_predictions None "output-variance" false in
  let run := feature_importance self Example.model true None (-1) false 5000
               "output-variance" "default" false in
  Pool (multiprocessing self) None
    = Raise (OtherError "OSError: cannot allocate memory")
  /\ snd run = Raise (OtherError "OSError: cannot allocate memory")
  /\ filter is_local_task (fst run) = []
  /\ exists ds, sequential_results task ["a"; "b"] = Ok ds.
Proof.
  cbv zeta. repeat split.
  eexists. vm_compute. reflexivity.
Qed.

End Fallback.

(* ================================================================== *)
(** * Forced sequential run against the fallback *)
(* ================================================================== *)

Section SequentialEquivalence.

Lemma parallel_attempt_fails_on_fault (self : Interpretation)
  (n_jobs : option Z) (pb : bool) (f : fid -> result dict) (args : list fid)
  (k : nat) (e : exn) :
  pool_fault (multiprocessing self) = Some (k, e) ->
  exists e', snd (parallel_attempt self n_jobs pb f args) = Raise e'.
Proof.
  intros Hf. unfold parallel_attempt.
  destruct (option_Z_eqb n_jobs 1); [eexists; reflexivity|].
  rewrite snd_bind. cbn [emit snd]. rewrite consume_result, Hf.
  apply sequence_fault.
Qed.

Lemma dispatch_on_fault (self : Interpretation) (n_jobs : option Z)
  (pb : bool) (f : fid -> result dict) (args : list fid) (k : nat) (e : exn) :
  pool_fault (multiprocessing self) = Some (k, e) ->
  snd (dispatch self n_jobs pb f args) = sequential_results f args.
Proof.
  intros Hf. rewrite dispatch_cases.
  destruct (parallel_attempt_fails_on_fault self n_jobs pb f args Hf)
    as [e' E].
  rewrite E. cbn [snd]. apply sequential_rerun_result.
Qed.

(** The result of the prelude does not depend on the pool, as long as
    the pool can be created. *)
Lemma prelude_result_any_pool (self : Interpretation) (model : Model)
  (fc : option (list string)) (pb : bool) (n_samples : Z) (method : string)
  (pA pB : PoolEnv) (nA nB : Z) :
  Pool pA (resolve_n_jobs nA) = Ok tt ->
  Pool pB (resolve_n_jobs nB) = Ok tt ->
  snd (prelude (with_pool self pA) model fc nA pb n_samples method)
  = snd (prelude (with_pool self pB) model fc nB pb n_samples method).
Proof.
  intros HA HB. unfold prelude.
  destruct (check_filter_classes_cases model fc) as [Ec|[msg Ec]];
    rewrite Ec; [|reflexivity].
  change (resolve_training_labels (with_pool self pA) method)
    with (resolve_training_labels (with_pool self pB) method).
  destruct (resolve_training_labels_cases (with_pool self pB) method)
    as [[l El]|[msg El]]; rewrite El; [|reflexivity].
  change (choose_inputs (with_pool self pA) n_samples)
    with (choose_inputs (with_pool self pB) n_samples).
  cbn [bind ret app].
  destruct (choose_inputs (with_pool self pB) n_samples) as [tc [i|e]];
    [|reflexivity].
  cbn [bind emit lift app].
  destruct (predict model i) as [p|e]; [|reflexivity].
  cbn [bind emit lift app with_pool multiprocessing].
  rewrite HA, HB.
  destruct pb; reflexivity.
Qed.

(** C9.  With collaborators that are functions (a deterministic model
    and sampler), the run with the worker count forced to 1 and the run
    with parallel dispatch on a pool that breaks produce the same raw
    importance mapping, and so the same final result: both are the
    outcome of the sequential run of the tasks.  The pool is created in
    both runs. *)
Theorem forced_sequential_equals_fallback :
  forall (self : Interpretation) (model : Model) (ascending : bool)
         (filter_classes : option (list string)) (n_jobs : Z)
         (progressbar : bool) (n_samples : Z) (method scorer : string)
         (use_scaling : bool) (pA pB : PoolEnv) (k : nat) (e : exn),
    Pool pA (Some 1%Z) = Ok tt ->
    Pool pB (resolve_n_jobs n_jobs) = Ok tt ->
    pool_fault pB = Some (k, e) ->
    snd (raw_importances (with_pool self pA) model filter_classes 1
           progressbar n_samples method use_scaling)
    = snd (raw_importances (with_pool self pB) model filter_classes n_jobs
             progressbar n_samples method use_scaling)
    /\ snd (feature_importance (with_pool self pA) model ascending
              filter_classes 1 progressbar n_samples method scorer
              use_scaling)
       = snd (feature_importance (with_pool self pB) model ascending
                filter_classes n_jobs progressbar n_samples method scorer
                use_scaling).
Proof.
  intros self model asc fc n_jobs pb n_samples method scorer scaling
         pA pB k e HA HB Hf.
  assert (Hraw : snd (raw_importances (with_pool self pA) model fc 1 pb
                        n_samples method scaling)
                 = snd (raw_importances (with_pool self pB) model fc n_jobs
                          pb n_samples method scaling)).
  { pose proof (@prelude_result_any_pool self model fc pb n_samples method
                  pA pB 1 n_jobs HA HB) as Hp.
    destruct (snd (prelude (with_pool self pB) model fc n_jobs pb n_samples
                     method)) as [[[i p] l]|e0] eqn:EB.
    - rewrite (raw_after_prelude (with_pool self pA) model fc 1 pb n_samples
                 method scaling Hp).
      rewrite (raw_after_prelude (with_pool self pB) model fc n_jobs pb
                 n_samples method scaling EB).
      cbn [snd].
      change (resolve_n_jobs 1) with (Some 1%Z).
      rewrite dispatch_forced_sequential. cbn [snd].
      rewrite (@dispatch_on_fault (with_pool self pB) (resolve_n_jobs n_jobs)
                 pb _ _ k e Hf).
      reflexivity.
    - rewrite (raw_prelude_raises (with_pool self pA) model fc 1 pb n_samples
                 method scaling Hp).
      rewrite (raw_prelude_raises (with_pool self pB) model fc n_jobs pb
                 n_samples method scaling EB).
      reflexivity. }
  split; [exact Hraw|].
  unfold feature_importance. rewrite !snd_bind, Hraw. reflexivity.
Qed.

Lemma forced_sequential_equals_fallback_witness :
  snd (feature_importance
         (with_pool (Example.interp Example.healthy_pool) Example.healthy_pool)
         Example.model true None 1 true 2 "output-variance" "default" true)
  = snd (feature_importance
           (with_pool (Example.interp Example.healthy_pool) Example.broken_pool)
           Example.model true None (-1) true 2 "output-variance" "default"
           true).
Proof.
  apply (@forced_sequential_equals_fallback
           (Example.interp Example.healthy_pool) Example.model true None (-1)
           true 2 "output-variance" "default" true
           Example.healthy_pool Example.broken_pool 1
           (OtherError "PicklingError"));
    reflexivity.
Defined.

End SequentialEquivalence.

(* ================================================================== *)
(** * [filter_classes] *)
(* ================================================================== *)

Section FilterClasses.

(** C10.  The computed importances do not depend on [filter_classes]:
    any two values that pass the subset validation (no value at all
    included) give, with the other arguments and the collaborators
    unchanged, the same run: the same events and the same result. *)
Theorem filter_classes_irrelevant :
  forall (self : Interpretation) (model : Model) (ascending : bool)
         (fc1 fc2 : option (list string)) (n_jobs : Z) (progressbar : bool)
         (n_samples : Z) (method scorer : string) (use_scaling : bool),
    passes_validation model fc1 ->
    passes_validation model fc2 ->
    feature_importance self model ascending fc1 n_jobs progressbar
      n_samples method scorer use_scaling
    = feature_importance self model ascending fc2 n_jobs progressbar
        n_samples method scorer use_scaling.
Proof.
  intros self model asc fc1 fc2 n_jobs pb n_samples method scorer scaling
         H1 H2.
  unfold feature_importance, raw_importances, prelude.
  rewrite (check_filter_classes_passes model fc1 H1).
  rewrite (check_filter_classes_passes model fc2 H2).
  reflexivity.
Qed.

Lemma filter_classes_irrelevant_witness :
  feature_importance (Example.interp Example.healthy_pool) Example.model
    true None (-1) false 5000 "output-variance" "default" false
  = feature_importance (Example.interp Example.healthy_pool) Example.model
      true (Some ["no"; "yes"]) (-1) false 5000 "output-variance" "default"
      false.
Proof.
  apply filter_classes_irrelevant.
  - exact I.
  - intros c Hc. simpl in *. tauto.
Defined.

End FilterClasses.

(* ================================================================== *)
(** * The fixed baseline *)
(* ================================================================== *)

Section Baseline.

(** Whatever way the dispatch produced its list of results, each entry
    is the result of the task on the corresponding feature. *)
Lemma dispatch_ok (self : Interpretation) (n_jobs : option Z) (pb : bool)
  (f : fid -> result dict) (args : list fid) (ds : list dict) :
  snd (dispatch self n_jobs pb f args) = Ok ds ->
  sequential_results f args = Ok ds.
Proof.
  rewrite dispatch_cases.
  destruct (snd (parallel_attempt self n_jobs pb f args)) as [ds'|e] eqn:E;
    cbn [snd].
  - intros H. inversion H; subst. revert E. unfold parallel_attempt.
    destruct (option_Z_eqb n_jobs 1); [discriminate|].
    rewrite snd_bind. cbn [emit snd]. rewrite consume_result.
    apply pool_stream_ok.
  - now rewrite sequential_rerun_result.
Qed.

Lemma filter_kind (P Q : event -> bool) (l : list event) :
  (forall ev, Q ev = true -> P ev = false) ->
  Forall (fun ev => Q ev = true) l -> filter P l = [].
Proof.
  intros HPQ H. apply filter_none.
  eapply Forall_impl; [|exact H]. intros ev Hev. now apply HPQ.
Qed.


Lemma filter_finish (P : event -> bool) (asc : bool) (d : dict) :
  (forall ev, finish_event ev = true -> P ev = false) ->
  filter P (fst (finish asc d)) = [].
Proof.
  intros H. eapply filter_kind; [exact H|apply finish_events].
Qed.







End Baseline.

(* ================================================================== *)
(** * Raw importances are never negative *)
(* ================================================================== *)

Section NotNegative.

Local Open Scope Qc_scope.

Lemma Qc_nonneg_mult (x y : Qc) : Q2Qc 0 <= x -> Q2Qc 0 <= y -> Q2Qc 0 <= x * y.
Proof.
  intros Hx Hy. replace (Q2Qc 0) with (Q2Qc 0 * y) by ring.
  now apply Qcmult_le_compat_r.
Qed.

Lemma Qc_nonneg_inv (x : Qc) : Q2Qc 0 <= x -> Q2Qc 0 <= / x.
Proof.
  unfold Qcle, Qcinv. intros H.
  change (0 <= this x)%Q in H. change (0 <= Qred (/ this x))%Q.
  rewrite Qred_correct. apply Qinv_le_0_compat. exact H.
Qed.

Lemma Qc_nonneg_compare (x : Qc) : Q2Qc 0 <= x -> (x ?= Q2Qc 0) <> Lt.
Proof.
  intros H E. apply Qclt_alt in E. exact (Qcle_not_lt _ _ H E).
Qed.

Lemma not_negative_nmul (a b : num) :
  not_negative a -> not_negative b -> not_negative (nmul a b).
Proof.
  destruct a as [x| | |], b as [y| | |]; simpl; auto; intros Ha Hb;
    try contradiction.
  - now apply Qc_nonneg_mult.
  - pose proof (Qc_nonneg_compare Ha). now destruct (x ?= Q2Qc 0).
  - pose proof (Qc_nonneg_compare Hb). now destruct (y ?= Q2Qc 0).
Qed.

Lemma not_negative_ndiv (a b : num) :
  not_negative a -> not_negative b -> not_negative (ndiv a b).
Proof.
  destruct a as [x| | |], b as [y| | |]; simpl; auto; intros Ha Hb;
    try contradiction.
  - destruct (Qc_eq_bool y (Q2Qc 0)).
    + pose proof (Qc_nonneg_compare Ha). now destruct (x ?= Q2Qc 0).
    + simpl. unfold Qcdiv. apply Qc_nonneg_mult; [exact Ha|].
      now apply Qc_nonneg_inv.
  - apply Qcle_refl.
  - replace (Qc_ltb y (Q2Qc 0)) with false; [exact I|].
    symmetry. now apply Qc_ltb_ge.
Qed.

Lemma not_negative_of_nat (n : nat) : not_negative (of_nat n).
Proof.
  unfold of_nat, of_Z, not_negative, Qcle.
  change (0 <= Qred (inject_Z (Z.of_nat n)))%Q.
  rewrite Qred_correct. unfold Qle. simpl. lia.
Qed.

Lemma not_negative_mean (l : list num) :
  Forall not_negative l -> not_negative (mean l).
Proof.
  intros H. unfold mean. apply not_negative_ndiv.
  - now apply not_negative_nsum.
  - apply not_negative_of_nat.
Qed.

Lemma not_negative_one : not_negative one.
Proof. unfold one, not_negative, Qcle. simpl. unfold Qle. simpl. lia. Qed.

Lemma nge_Fin (a b : Qc) : nge (Fin a) (Fin b) <-> b <= a.
Proof.
  unfold nge. cbn [ncompare]. split.
  - destruct (a ?= b) eqn:E; try contradiction; intros _.
    + apply Qceq_alt in E. subst. apply Qcle_refl.
    + apply Qccompare_Gt in E. now apply Qclt_le_weak.
  - intros H. destruct (a ?= b) eqn:E; auto.
    apply Qclt_alt in E. exact (Qcle_not_lt _ _ H E).
Qed.

Lemma ngtb_nge_trans (a b c : num) :
  ngtb a b = true -> nge b c -> nge a c.
Proof.
  destruct a as [x| | |], b as [y| | |], c as [z| | |];
    unfold ngtb, nge; cbn [ncompare]; try discriminate; try tauto.
  intros H1 H2.
  assert (L : y < x).
  { apply Qccompare_Gt. now destruct (x ?= y). }
  apply (nge_Fin y z) in H2. apply (nge_Fin x z).
  apply Qcle_trans with y; [exact H2|now apply Qclt_le_weak].
Qed.

Lemma nge_nltb_trans (a b c : num) :
  nge a b -> nltb c b = true -> nge a c.
Proof.
  destruct a as [x| | |], b as [y| | |], c as [z| | |];
    unfold nltb, nge; cbn [ncompare]; try discriminate; try tauto.
  intros H1 H2.
  assert (L : z < y).
  { apply Qclt_alt. now destruct (z ?= y). }
  apply (nge_Fin x y) in H1. apply (nge_Fin x z).
  apply Qcle_trans with y; [now apply Qclt_le_weak|exact H1].
Qed.

Lemma py_max_ge (l : list num) (acc x : num) :
  nge acc x -> nge (fold_left py_max2 l acc) x.
Proof.
  revert acc. induction l as [|b l IH]; intros acc H; cbn [fold_left];
    [exact H|].
  apply IH. unfold py_max2. destruct (ngtb b acc) eqn:G; [|exact H].
  exact (ngtb_nge_trans _ _ _ G H).
Qed.

Lemma py_min_le (l : list num) (acc x : num) :
  nge x acc -> nge x (fold_left py_min2 l acc).
Proof.
  revert acc. induction l as [|b l IH]; intros acc H; cbn [fold_left];
    [exact H|].
  apply IH. unfold py_min2. destruct (nltb b acc) eqn:G; [|exact H].
  exact (nge_nltb_trans _ _ _ H G).
Qed.

Lemma py_max_NaN (l : list num) : fold_left py_max2 l NaN = NaN.
Proof.
  induction l as [|b l IH]; [reflexivity|]. cbn [fold_left].
  replace (py_max2 NaN b) with NaN; [exact IH|].
  unfold py_max2, ngtb. now destruct b.
Qed.

Lemma nge_nsub (a x b : num) : nge a x -> nge x b -> not_negative (nsub a b).
Proof.
  destruct a as [p| | |], x as [q| | |], b as [r| | |];
    unfold nge; cbn [ncompare]; try tauto; simpl; auto.
  intros H1 H2. apply (nge_Fin p q) in H1. apply (nge_Fin q r) in H2.
  apply -> Qcle_minus_iff. apply Qcle_trans with q; assumption.
Qed.

(** max(original_x) - min(original_x) is never negative. *)
Lemma range_not_negative (l : list num) (mx mn : num) :
  py_max l = Ok mx -> py_min l = Ok mn -> not_negative (nsub mx mn).
Proof.
  destruct l as [|x l]; [discriminate|]. cbn [py_max py_min].
  intros Hx Hn. inversion Hx; inversion Hn; subst.
  destruct (ncompare x x) as [c|] eqn:E.
  - assert (R : nge x x).
    { unfold nge. rewrite E. destruct x as [q| | |]; simpl in E;
        try discriminate; inversion E; subst; auto.
      replace (q ?= q) with Eq; [exact I|]. symmetry. now apply Qceq_alt. }
    eapply nge_nsub; [apply py_max_ge, R|apply py_min_le, R].
  - destruct x; simpl in E; try discriminate.
    now rewrite py_max_NaN.
Qed.

End NotNegative.

Section EstimatorNotNegative.

Local Open Scope result_scope.

Lemma zip_with2_Forall (P : num -> Prop) (f : num -> num -> num)
  (a b m : list (list num)) :
  (forall x y, P (f x y)) ->
  zip_with2 f a b = Ok m -> Forall (Forall P) m.
Proof.
  intros Hf. revert b m.
  induction a as [|r a IH]; intros [|s b] m H; cbn [zip_with2] in H;
    try discriminate.
  - inversion H. constructor.
  - destruct (zip_with f r s) as [l|e] eqn:E1; [|discriminate].
    destruct (zip_with2 f a b) as [m'|e] eqn:E2; [|discriminate].
    inversion H; subst. constructor.
    + eapply zip_with_Forall; [|exact E1]. intros; apply Hf.
    + now apply (IH b).
Qed.

Lemma Forall_concat (P : num -> Prop) (m : list (list num)) :
  Forall (Forall P) m -> Forall P (List.concat m).
Proof.
  induction 1 as [|r m Hr _ IH]; cbn [List.concat]; [constructor|].
  apply Forall_app. now split.
Qed.

Lemma abs_diff_not_negative (a b c : ndarray) :
  abs_diff a b = Ok c ->
  Forall (Forall not_negative)
         (match c with Arr1 v => newaxis v | Arr2 m => m end).
Proof.
  destruct a as [u|m], b as [v|n]; cbn [abs_diff]; try discriminate.
  - destruct (zip_with _ u v) as [l|e] eqn:E; [|discriminate].
    intros H; inversion H; subst.
    assert (F : Forall not_negative l).
    { eapply zip_with_Forall; [|exact E]. intros; apply nabs_not_negative. }
    clear E H. unfold newaxis.
    induction F as [|x l Hx _ IH]; cbn [map]; [constructor|].
    constructor; [repeat constructor; exact Hx|exact IH].
  - destruct (zip_with2 _ m n) as [l|e] eqn:E; [|discriminate].
    intros H; inversion H; subst.
    eapply zip_with2_Forall; [|exact E]. intros; apply nabs_not_negative.
Qed.

Lemma importance_scaler_not_negative (o p s : list num) :
  importance_scaler o p = Ok s -> Forall not_negative s.
Proof.
  unfold importance_scaler, reshape_like.
  destruct (Nat.eqb (length p) (length o)); cbn [rbind]; [|discriminate].
  destruct (py_max o) as [mx|e] eqn:Emx; cbn [rbind]; [|discriminate].
  destruct (py_min o) as [mn|e] eqn:Emn; cbn [rbind]; [|discriminate].
  destruct (zip_with _ p o) as [sc|e] eqn:Ez; cbn [rbind]; [|discriminate].
  destruct (negb _); intros H; inversion H; subst.
  - unfold ones. apply Forall_forall. intros x Hx.
    apply repeat_spec in Hx. subst. apply not_negative_one.
  - eapply zip_with_Forall; [|exact Ez]. intros x y _ _.
    apply not_negative_ndiv; [apply nabs_not_negative|].
    exact (range_not_negative o Emx Emn).
Qed.

Lemma output_variance_not_negative (a b : ndarray) (ox px : list num)
  (scaled : bool) (v : num) :
  _compute_importance_via_output_variance a b ox px scaled = Ok v ->
  not_negative v.
Proof.
  unfold _compute_importance_via_output_variance.
  destruct (abs_diff a b) as [c|e] eqn:Ea; cbn [rbind]; [|discriminate].
  pose proof (abs_diff_not_negative a b Ea) as F.
  set (changes := match c with Arr1 v0 => newaxis v0 | Arr2 m => m end) in *.
  destruct scaled.
  - destruct (importance_scaler ox px) as [s|e] eqn:Es; cbn [rbind];
      [|discriminate].
    destruct (zip_with nmul (sum_axis1 changes) s) as [w|e] eqn:Ez;
      cbn [rbind]; [|discriminate].
    intros H; inversion H; subst. cbn [np_mean].
    apply not_negative_mean.
    eapply zip_with_Forall; [|exact Ez]. intros x y Hx Hy.
    apply not_negative_nmul.
    + unfold sum_axis1 in Hx. apply in_map_iff in Hx.
      destruct Hx as (r & <- & Hr). apply not_negative_nsum.
      rewrite Forall_forall in F. now apply F.
    + pose proof (importance_scaler_not_negative ox px Es) as Fs.
      rewrite Forall_forall in Fs. now apply Fs.
  - intros H; inversion H; subst. cbn [np_mean].
    apply not_negative_mean. now apply Forall_concat.
Qed.

Lemma conditional_permutation_not_negative (a b : ndarray)
  (labels : option ndarray) (ox px : list num) (scorer : Scorer)
  (scaled : bool) (v : num) :
  _compute_importance_via_conditional_permutation a b labels ox px scorer
    scaled = Ok v ->
  not_negative v.
Proof.
  unfold _compute_importance_via_conditional_permutation.
  destruct (if scaled then _ else _) as [w|e]; cbn [rbind]; [|discriminate].
  destruct (score scorer labels a w) as [s1|e]; cbn [rbind]; [|discriminate].
  destruct (score scorer labels b w) as [s2|e]; cbn [rbind]; [|discriminate].
  intros H; inversion H; subst. apply nabs_not_negative.
Qed.

(** Whatever the method, an importance that is computed is never
    negative. *)
Lemma compute_importance_not_negative (a b : ndarray) (ox px : list num)
  (labels : option ndarray) (method : string) (scaled : bool)
  (scorer : Scorer) (v : num) :
  compute_importance a b ox px labels method scaled scorer = Ok v ->
  not_negative v.
Proof.
  unfold compute_importance.
  destruct (String.eqb method "output-variance").
  - apply output_variance_not_negative.
  - destruct (String.eqb method "conditional-permutation"); [|discriminate].
    apply conditional_permutation_not_negative.
Qed.

Lemma compute_feature_importance_inv (dm : DataManagerCls) (f : fid)
  (input_data : Data) (estimator_fn : Data -> result ndarray)
  (preds : ndarray) (info : fid -> option bool) (names : list fid)
  (labels : option ndarray) (method : string) (scaled : bool)
  (scorer : Scorer) (d : dict) :
  compute_feature_importance dm f input_data estimator_fn preds info names
    labels method scaled scorer = Ok d ->
  exists v, d = [(f, v)] /\ not_negative v.
Proof.
  unfold compute_feature_importance.
  destruct (dm_getitem dm input_data names f) as [ov|e]; cbn [rbind];
    [|discriminate].
  destruct (info f) as [numeric|]; cbn [rbind]; [|discriminate].
  destruct (generate_column_sample dm input_data names f _ _) as [sm|e];
    cbn [rbind]; [|discriminate].
  destruct (dm_setitem dm input_data names f sm) as [cp|e]; cbn [rbind];
    [|discriminate].
  destruct (estimator_fn cp) as [np|e]; cbn [rbind]; [|discriminate].
  destruct (compute_importance np preds ov sm labels method scaled scorer)
    as [v|e] eqn:E; cbn [rbind]; [|discriminate].
  intros H; inversion H; subst. exists v. split; [reflexivity|].
  exact (compute_importance_not_negative _ _ _ _ _ _ _ _ E).
Qed.

End EstimatorNotNegative.

(* ================================================================== *)
(** * Merging, ordering, normalizing *)
(* ================================================================== *)

Section Dicts.

Lemma dict_set_keys (k : fid) (v : num) (d : dict) (x : fid) :
  In x (map fst (dict_set k v d)) <-> x = k \/ In x (map fst d).
Proof.
  induction d as [|[k' v'] d IH]; cbn [dict_set map fst In].
  - intuition.
  - destruct (String.eqb_spec k k') as [->|N]; cbn [map fst In].
    + intuition.
    + rewrite IH. intuition.
Qed.

Lemma dict_set_NoDup (k : fid) (v : num) (d : dict) :
  NoDup (map fst d) -> NoDup (map fst (dict_set k v d)).
Proof.
  induction d as [|[k' v'] d IH]; cbn [dict_set map fst]; intros H.
  - repeat constructor. intros [].
  - inversion H as [|? ? Hn Hd]; subst.
    destruct (String.eqb_spec k k') as [->|N]; cbn [map fst].
    + now constructor.
    + constructor; [|now apply IH].
      rewrite dict_set_keys. intros [E|I]; [congruence|contradiction].
Qed.

Lemma dict_set_values (P : num -> Prop) (k : fid) (v : num) (d : dict) :
  P v -> Forall P (map snd d) -> Forall P (map snd (dict_set k v d)).
Proof.
  intros Hv. induction d as [|[k' v'] d IH]; cbn [dict_set map snd]; intros H.
  - now repeat constructor.
  - inversion H; subst.
    destruct (String.eqb k k'); cbn [map snd]; constructor; auto.
Qed.

(** The raw mapping built from one single-entry dict per feature: its
    keys are the feature ids, each once, and its values are values the
    tasks returned. *)
Lemma merge_invariant (P : num -> Prop) (ids : list fid) (ds : list dict) :
  Forall2 (fun f d => exists v, d = [(f, v)] /\ P v) ids ds ->
  forall acc,
    NoDup (map fst acc) -> Forall P (map snd acc) ->
    NoDup (map fst (fold_left dict_update ds acc))
    /\ Forall P (map snd (fold_left dict_update ds acc))
    /\ forall x, In x (map fst (fold_left dict_update ds acc))
                 <-> In x (map fst acc) \/ In x ids.
Proof.
  induction 1 as [|f d ids ds (v & -> & Hv) _ IH]; intros acc Hn Hp;
    cbn [fold_left].
  - repeat split; auto. intros [H|[]]; exact H.
  - unfold dict_update at 2 4 6. cbn [fold_left fst snd].
    destruct (IH (dict_set f v acc)) as (I1 & I2 & I3).
    + now apply dict_set_NoDup.
    + now apply dict_set_values.
    + repeat split; auto.
      * intros H. apply I3 in H. rewrite dict_set_keys in H.
        cbn [In]. intuition.
      * intros H. apply I3. rewrite dict_set_keys. cbn [In] in H. intuition.
Qed.

Lemma sort_insert_perm (asc : bool) (x : fid * num) (l : dict) :
  Permutation (sort_insert asc x l) (x :: l).
Proof.
  induction l as [|y l IH]; cbn [sort_insert]; [reflexivity|].
  destruct (precedes asc x y); [reflexivity|].
  rewrite IH. apply perm_swap.
Qed.

Lemma sort_values_perm (asc : bool) (s : dict) :
  Permutation (sort_values asc s) s.
Proof.
  unfold sort_values. induction s as [|x s IH]; cbn [fold_right];
    [reflexivity|].
  rewrite sort_insert_perm. now constructor.
Qed.

Lemma nsum_perm (l l' : list num) : Permutation l l' -> nsum l = nsum l'.
Proof.
  induction 1 as [|x l l' _ IH|x y l|l l' l'' _ IH1 _ IH2].
  - reflexivity.
  - now rewrite !nsum_cons, IH.
  - rewrite !nsum_cons, !nadd_assoc. f_equal. apply nadd_comm.
  - congruence.
Qed.

Lemma filter_perm (P : num -> bool) (l l' : list num) :
  Permutation l l' -> Permutation (filter P l) (filter P l').
Proof.
  induction 1 as [|x l l' _ IH|x y l|l l' l'' _ IH1 _ IH2]; cbn [filter].
  - reflexivity.
  - destruct (P x); [now constructor|exact IH].
  - destruct (P x), (P y); try reflexivity. apply perm_swap.
  - now transitivity (filter P l').
Qed.

Lemma series_sum_perm (s s' : dict) :
  Permutation s s' -> series_sum s = series_sum s'.
Proof.
  intros H. unfold series_sum. apply nsum_perm, filter_perm.
  now apply Permutation_map.
Qed.

Lemma divide_zerosafe_ones (s : dict) (t : num) :
  divide_zerosafe s (map (fun o => nmul o t) (ones (length s)))
  = Ok (map (fun kv => (fst kv, divide_zerosafe_1 (snd kv) (nmul one t))) s).
Proof.
  unfold divide_zerosafe, ones.
  induction s as [|[k v] s IH]; cbn [length repeat map]; [reflexivity|].
  rewrite IH. reflexivity.
Qed.

End Dicts.

Section Normalization.

Local Open Scope Qc_scope.

Lemma finite_values (l : list num) :
  Forall (fun v => is_finite v /\ not_negative v) l ->
  exists qs, l = map Fin qs /\ Forall (fun q => Q2Qc 0 <= q) qs.
Proof.
  induction 1 as [|v l [Hf Hn] _ (qs & -> & Hq)].
  - now exists [].
  - destruct v as [q| | |]; try contradiction.
    exists (q :: qs). split; [reflexivity|now constructor].
Qed.

Lemma nsum_Fin (qs : list Qc) : nsum (map Fin qs) = Fin (Qc_sum qs).
Proof.
  induction qs as [|q qs IH]; [reflexivity|].
  cbn [map Qc_sum fold_right]. rewrite nsum_cons, IH. reflexivity.
Qed.

Lemma filter_Fin (qs : list Qc) :
  filter (fun v => negb (is_nan v)) (map Fin qs) = map Fin qs.
Proof.
  induction qs as [|q qs IH]; cbn [map filter is_nan negb]; [reflexivity|].
  now rewrite IH.
Qed.






End Normalization.

(* ================================================================== *)
(** * The importance distribution *)
(* ================================================================== *)

Section Distribution.

Lemma filter_prelude (P : event -> bool) (self : Interpretation)
  (model : Model) (fc : option (list string)) (n_jobs : Z) (pb : bool)
  (n_samples : Z) (method : string) :
  (forall ev, prelude_event ev = true -> P ev = false) ->
  filter P (fst (prelude self model fc n_jobs pb n_samples method)) = [].
Proof.
  intros H. apply filter_none.
  eapply Forall_impl; [|apply prelude_events].
  intros ev [Hev _]. now apply H.
Qed.

(** The raw mapping of a run: one entry per feature id, no value below
    zero. *)
Lemma raw_importances_shape (self : Interpretation) (model : Model)
  (fc : option (list string)) (n_jobs : Z) (pb : bool) (n_samples : Z)
  (method : string) (scaling : bool) (importances : dict) :
  snd (raw_importances self model fc n_jobs pb n_samples method scaling)
    = Ok importances ->
  NoDup (map fst importances)
  /\ Forall not_negative (map snd importances)
  /\ forall f, In f (map fst importances)
               <-> In f (feature_ids (data_set self)).
Proof.
  intros H.
  destruct (raw_ok_inv self model fc n_jobs pb n_samples method scaling H)
    as (inputs & preds & labels & ds & _ & Hd & ->).
  apply dispatch_ok, sequential_results_ok in Hd.
  assert (F : Forall2 (fun f d => exists v, d = [(f, v)] /\ not_negative v)
                      (feature_ids (data_set self)) ds).
  { eapply Forall2_impl; [|exact Hd]. intros f d Hf.
    unfold fi_func in Hf. exact (compute_feature_importance_inv _ _ _ _ _ _ _ _ _ _ _ Hf). }
  destruct (merge_invariant F (@nil (fid * num))) as (H1 & H2 & H3);
    [constructor|constructor|].
  unfold merge. repeat split; auto.
  - intros I. apply H3 in I. destruct I as [[]|I]; exact I.
  - intros I. apply H3. now right.
Qed.




End Distribution.

(* ================================================================== *)
(** * More on the scale estimator *)
(* ================================================================== *)

Section ScaleEstimatorDomain.

Local Open Scope Qc_scope.

Lemma importance_scaler_length (o p s : list num) :
  importance_scaler o p = Ok s -> length s = length o /\ length p = length o.
Proof.
  unfold importance_scaler, reshape_like.
  destruct (Nat.eqb (length p) (length o)) eqn:L; cbn [rbind]; [|discriminate].
  apply Nat.eqb_eq in L.
  destruct (py_max o) as [mx|e]; cbn [rbind]; [|discriminate].
  destruct (py_min o) as [mn|e]; cbn [rbind]; [|discriminate].
  destruct (zip_with _ p o) as [sc|e] eqn:Ez; cbn [rbind]; [|discriminate].
  apply zip_with_length in Ez. destruct Ez as [_ Ez].
  destruct (negb _); intros H; inversion H; subst; split; auto.
  - unfold ones. now rewrite repeat_length.
  - congruence.
Qed.

(** X1.  [importance_scaler] returns weights exactly when the original
    column is not empty and the perturbed values are as many as the
    original ones; it then returns one weight per row.  In every other
    case it raises a ValueError. *)
Theorem importance_scaler_domain :
  forall (o p : list num),
    ((exists s, importance_scaler o p = Ok s)
     <-> (o <> [] /\ length p = length o))
    /\ (forall s, importance_scaler o p = Ok s -> length s = length o)
    /\ (forall e, importance_scaler o p = Raise e ->
                  exists msg, e = ValueError msg).
Proof.
  intros o p. split; [split|split].
  - intros [s H]. split.
    + intros ->. unfold importance_scaler, reshape_like in H.
      destruct (Nat.eqb (length p) (length (@nil num))); discriminate.
    + now destruct (importance_scaler_length o p H).
  - intros [Hne Hlen].
    destruct o as [|x o]; [contradiction|].
    eexists.
    apply (@importance_scaler_unfold (x :: o) p (fold_left py_max2 o x)
             (fold_left py_min2 o x) Hlen); reflexivity.
  - intros s H. now destruct (importance_scaler_length o p H).
  - intros e. unfold importance_scaler, reshape_like.
    destruct (Nat.eqb (length p) (length o)) eqn:L; cbn [rbind].
    + destruct o as [|x o]; cbn [py_max py_min rbind].
      * intros H. inversion H. eauto.
      * apply Nat.eqb_eq in L.
        rewrite zip_with_same_length by exact L. cbn [rbind].
        destruct (negb _); discriminate.
    + intros H. inversion H. eauto.
Qed.

Lemma importance_scaler_domain_witness :
  (exists s, importance_scaler [of_Z 2; of_Z 5] [of_Z 5; of_Z 2] = Ok s)
  /\ (exists msg, importance_scaler [] [] = Raise (ValueError msg))
  /\ (exists msg,
        importance_scaler [of_Z 2; of_Z 5] [of_Z 5] = Raise (ValueError msg)).
Proof.
  split; [|split].
  - apply (proj1 (importance_scaler_domain [of_Z 2; of_Z 5] [of_Z 5; of_Z 2])).
    split; [discriminate|reflexivity].
  - destruct (importance_scaler_domain [] []) as (_ & _ & H).
    destruct (H _ eq_refl) as [msg E]. exists msg. now rewrite <- E.
  - destruct (importance_scaler_domain [of_Z 2; of_Z 5] [of_Z 5])
      as (_ & _ & H).
    destruct (H _ eq_refl) as [msg E]. exists msg. now rewrite <- E.
Defined.

End ScaleEstimatorDomain.

(* ================================================================== *)
(** * More on the two methods *)
(* ================================================================== *)

Section MethodFacts.

Local Open Scope Qc_scope.

Lemma nabs_nsub_comm (x y : num) : nabs (nsub x y) = nabs (nsub y x).
Proof.
  destruct x as [a| | |], y as [b| | |]; cbn; try reflexivity.
  f_equal. apply (Qcabs_Qcminus a b).
Qed.

Lemma zip_with_swap (f : num -> num -> num) (a b : list num) :
  (forall x y, f x y = f y x) -> zip_with f a b = zip_with f b a.
Proof.
  intros Hf. revert b. induction a as [|x a IH]; intros [|y b];
    cbn [zip_with]; try reflexivity.
  now rewrite IH, Hf.
Qed.

Lemma zip_with2_swap (f : num -> num -> num) (a b : list (list num)) :
  (forall x y, f x y = f y x) -> zip_with2 f a b = zip_with2 f b a.
Proof.
  intros Hf. revert b. induction a as [|r a IH]; intros [|s b];
    cbn [zip_with2]; try reflexivity.
  rewrite IH, (zip_with_swap f r s Hf).
  destruct (zip_with f s r), (zip_with2 f b a); reflexivity.
Qed.

(** X3.  The output-variance importance does not depend on which of
    the two prediction arrays is the perturbed one: exchanging them
    gives the same value, or the same exception. *)
Theorem output_variance_symmetric :
  forall (a b : ndarray) (original_x perturbed_x : list num) (scaled : bool),
    _compute_importance_via_output_variance a b original_x perturbed_x scaled
    = _compute_importance_via_output_variance b a original_x perturbed_x
        scaled.
Proof.
  intros a b ox px scaled.
  unfold _compute_importance_via_output_variance.
  assert (E : abs_diff a b = abs_diff b a).
  { destruct a as [u|m], b as [v|n]; cbn [abs_diff]; try reflexivity.
    - now rewrite (zip_with_swap _ u v nabs_nsub_comm).
    - now rewrite (zip_with2_swap _ m n nabs_nsub_comm). }
  now rewrite E.
Qed.

Lemma of_nat_nonzero (n : nat) :
  Qc_eq_bool (Q2Qc (inject_Z (Z.of_nat (S n)))) (Q2Qc 0) = false.
Proof.
  destruct (Qc_eq_bool _ _) eqn:E; [|reflexivity].
  apply Qc_eq_bool_true in E. apply (f_equal this) in E.
  cbn [this Q2Qc] in E. apply Qred_eq_iff in E.
  unfold Qeq in E. simpl in E. lia.
Qed.

Lemma nsum_zeros (n : nat) : nsum (repeat zero n) = zero.
Proof.
  induction n as [|n IH]; [reflexivity|].
  cbn [repeat]. rewrite nsum_cons, IH. apply nadd_zero_l.
Qed.

Lemma mean_zeros (n : nat) : mean (repeat zero (S n)) = zero.
Proof.
  unfold mean. rewrite nsum_zeros, repeat_length.
  unfold zero, of_nat, of_Z. cbn [ndiv]. rewrite of_nat_nonzero.
  f_equal. unfold Qcdiv. ring.
Qed.

Lemma abs_diff_self_vector (v : list num) :
  Forall is_finite v ->
  zip_with (fun x y => nabs (nsub x y)) v v = Ok (repeat zero (length v)).
Proof.
  induction 1 as [|x v Hx _ IH]; [reflexivity|].
  cbn [zip_with length repeat]. rewrite IH. do 2 f_equal.
  destruct x as [q| | |]; try contradiction. cbn. unfold zero. f_equal.
  replace (q + - q) with (Q2Qc 0) by ring. apply Qcabs_pos, Qcle_refl.
Qed.

Lemma abs_diff_self_matrix (m : list (list num)) :
  Forall (Forall is_finite) m ->
  zip_with2 (fun x y => nabs (nsub x y)) m m
  = Ok (map (fun r => repeat zero (length r)) m).
Proof.
  induction 1 as [|r m Hr _ IH]; [reflexivity|].
  cbn [zip_with2 map]. now rewrite IH, abs_diff_self_vector.
Qed.

Lemma concat_zeros (m : list (list num)) :
  List.concat (map (fun r => repeat zero (length r)) m)
  = repeat zero (length (List.concat m)).
Proof.
  induction m as [|r m IH]; [reflexivity|].
  cbn [map List.concat]. rewrite IH, length_app, repeat_app. reflexivity.
Qed.

(** X4.  A model that is insensitive to the feature gets importance
    exactly 0 under output-variance without scaling: when the perturbed
    predictions equal the baseline predictions (finite values, at least
    one of them), the importance is 0. *)
Theorem output_variance_insensitive :
  forall (a : ndarray) (original_x perturbed_x : list num),
    all_finite2 a -> (0 < size a)%nat ->
    _compute_importance_via_output_variance a a original_x perturbed_x false
    = Ok zero.
Proof.
  intros [v|m] ox px Hf Hn; cbn [all_finite2 size] in *;
    unfold _compute_importance_via_output_variance; cbn [abs_diff].
  - rewrite (abs_diff_self_vector Hf). cbn [rbind np_mean].
    rewrite concat_newaxis. f_equal.
    destruct (length v) as [|n]; [lia|]. apply mean_zeros.
  - rewrite (abs_diff_self_matrix Hf). cbn [rbind np_mean].
    rewrite concat_zeros. f_equal.
    destruct (length (List.concat m)) as [|n]; [lia|]. apply mean_zeros.
Qed.

Lemma output_variance_insensitive_witness :
  _compute_importance_via_output_variance
    (Arr2 [[frac 1 4; frac 3 4]; [frac 1 2; frac 1 2]])
    (Arr2 [[frac 1 4; frac 3 4]; [frac 1 2; frac 1 2]])
    [of_Z 1; of_Z 2] [of_Z 2; of_Z 1] false
  = Ok zero.
Proof.
  apply output_variance_insensitive.
  - repeat constructor.
  - cbn. lia.
Defined.

(** X5.  Under conditional-permutation, predictions that the
    perturbation leaves unchanged give importance exactly 0, for an
    increasing and for a decreasing scorer alike, whenever the score is
    a finite number. *)
Theorem conditional_permutation_insensitive :
  forall (a : ndarray) (training_labels : option ndarray)
         (original_x perturbed_x : list num) (scorer : Scorer)
         (scaled : bool) (weights : option (list num)) (s : Qc),
    sample_weight scaled original_x perturbed_x = Ok weights ->
    score scorer training_labels a weights = Ok (Fin s) ->
    _compute_importance_via_conditional_permutation a a training_labels
      original_x perturbed_x scorer scaled
    = Ok zero.
Proof.
  intros a tl ox px scorer scaled w s Hw Hs.
  unfold _compute_importance_via_conditional_permutation.
  unfold sample_weight in Hw. rewrite Hw. cbn [rbind]. rewrite Hs.
  cbn [rbind]. f_equal.
  assert (Z : forall m, nmul (nsub (Fin s) (Fin s)) (Fin m) = zero).
  { intros m. cbn. unfold zero. f_equal. ring. }
  assert (C : nabs (py_max2 zero (of_Z 0)) = zero).
  { change (py_max2 zero (of_Z 0)) with zero. unfold zero. cbn [nabs].
    f_equal. apply Qcabs_pos, Qcle_refl. }
  destruct (scorer_type_eqb _ _); unfold of_Z at 1; rewrite Z; exact C.
Qed.

Lemma conditional_permutation_insensitive_witness :
  _compute_importance_via_conditional_permutation
    (Arr1 [of_Z 9; of_Z 3; of_Z 0]) (Arr1 [of_Z 9; of_Z 3; of_Z 0])
    (Some (Arr1 [of_Z 0; of_Z 3; of_Z 9]))
    [of_Z 0; of_Z 1; of_Z 3] [of_Z 1; of_Z 3; of_Z 0] Example.mae true
  = Ok zero.
Proof.
  apply (@conditional_permutation_insensitive
           (Arr1 [of_Z 9; of_Z 3; of_Z 0])
           (Some (Arr1 [of_Z 0; of_Z 3; of_Z 9]))
           [of_Z 0; of_Z 1; of_Z 3] [of_Z 1; of_Z 3; of_Z 0] Example.mae true
           (Some [frac 1 3; frac 2 3; of_Z 1]) (Q2Qc (inject_Z 6)));
    num_refl.
Defined.

End MethodFacts.

(* ================================================================== *)
(** * What the result of a run depends on *)
(* ================================================================== *)

Section ExecutionIndependence.

(** However the dispatch goes (pool, fallback, forced sequential run),
    its outcome is that of running the tasks one after the other. *)
Lemma dispatch_result (self : Interpretation) (n_jobs : option Z) (pb : bool)
  (f : fid -> result dict) (args : list fid) :
  snd (dispatch self n_jobs pb f args) = sequential_results f args.
Proof.
  destruct (snd (dispatch self n_jobs pb f args)) as [ds|e] eqn:E.
  - symmetry. exact (dispatch_ok _ _ _ _ _ E).
  - rewrite dispatch_cases in E.
    destruct (snd (parallel_attempt self n_jobs pb f args)) as [ds|e0];
      cbn [snd] in E; [discriminate|].
    now rewrite sequential_rerun_result in E.
Qed.

Lemma prelude_result_any_execution (self : Interpretation) (model : Model)
  (fc : option (list string)) (n_samples : Z) (method : string)
  (pA pB : PoolEnv) (nA nB : Z) (pbA pbB : bool) :
  Pool pA (resolve_n_jobs nA) = Ok tt ->
  Pool pB (resolve_n_jobs nB) = Ok tt ->
  snd (prelude (with_pool self pA) model fc nA pbA n_samples method)
  = snd (prelude (with_pool self pB) model fc nB pbB n_samples method).
Proof.
  intros HA HB. unfold prelude.
  destruct (check_filter_classes_cases model fc) as [Ec|[msg Ec]];
    rewrite Ec; [|reflexivity].
  change (resolve_training_labels (with_pool self pA) method)
    with (resolve_training_labels (with_pool self pB) method).
  destruct (resolve_training_labels_cases (with_pool self pB) method)
    as [[l El]|[msg El]]; rewrite El; [|reflexivity].
  change (choose_inputs (with_pool self pA) n_samples)
    with (choose_inputs (with_pool self pB) n_samples).
  cbn [bind ret app].
  destruct (choose_inputs (with_pool self pB) n_samples) as [tc [i|e]];
    [|reflexivity].
  cbn [bind emit lift app].
  destruct (predict model i) as [p|e]; [|reflexivity].
  cbn [bind emit lift app with_pool multiprocessing].
  rewrite HA, HB.
  destruct pbA, pbB; reflexivity.
Qed.

(** The result of a run whose prelude succeeds. *)
Lemma run_result (self : Interpretation) (model : Model) (asc : bool)
  (fc : option (list string)) (n_jobs : Z) (pb : bool) (n_samples : Z)
  (method scorer : string) (scaling : bool)
  (inputs : Data) (preds : ndarray) (labels : option ndarray) :
  snd (prelude self model fc n_jobs pb n_samples method)
    = Ok (inputs, preds, labels) ->
  snd (feature_importance self model asc fc n_jobs pb n_samples method
         scorer scaling)
  = match sequential_results
            (fi_func self model inputs preds labels method scaling)
            (feature_ids (data_set self)) with
    | Ok ds => snd (finish asc (merge ds))
    | Raise e => Raise e
    end.
Proof.
  intros Hp. unfold feature_importance. rewrite snd_bind.
  rewrite (raw_after_prelude self model fc n_jobs pb n_samples method
             scaling Hp).
  cbn [snd]. rewrite dispatch_result.
  now destruct (sequential_results _ _).
Qed.

(** X6.  As long as the pool can be created, the value a call returns
    (or the exception it raises) does not depend on the worker count,
    on the progress bar, or on whether the pool works or breaks: two
    calls that differ only in these end alike. *)
Theorem result_independent_of_execution :
  forall (self : Interpretation) (model : Model) (ascending : bool)
         (filter_classes : option (list string)) (n_samples : Z)
         (method scorer : string) (use_scaling : bool)
         (pA pB : PoolEnv) (nA nB : Z) (pbA pbB : bool),
    Pool pA (resolve_n_jobs nA) = Ok tt ->
    Pool pB (resolve_n_jobs nB) = Ok tt ->
    snd (feature_importance (with_pool self pA) model ascending
           filter_classes nA pbA n_samples method scorer use_scaling)
    = snd (feature_importance (with_pool self pB) model ascending
             filter_classes nB pbB n_samples method scorer use_scaling).
Proof.
  intros self model asc fc n_samples method scorer scaling pA pB nA nB
         pbA pbB HA HB.
  pose proof (@prelude_result_any_execution self model fc n_samples method
                pA pB nA nB pbA pbB HA HB) as Hp.
  destruct (snd (prelude (with_pool self pB) model fc nB pbB n_samples
                   method)) as [[[i p] l]|e] eqn:EB.
  - rewrite (run_result (with_pool self pA) model asc fc nA pbA n_samples
               method scorer scaling Hp).
    rewrite (run_result (with_pool self pB) model asc fc nB pbB n_samples
               method scorer scaling EB).
    reflexivity.
  - unfold feature_importance. rewrite !snd_bind.
    rewrite (raw_prelude_raises (with_pool self pA) model fc nA pbA
               n_samples method scaling Hp).
    rewrite (raw_prelude_raises (with_pool self pB) model fc nB pbB
               n_samples method scaling EB).
    reflexivity.
Qed.

(** Four workers with a progress bar on a pool that works, against one
    worker without progress bar on a pool that breaks. *)
Lemma result_independent_of_execution_witness :
  snd (feature_importance
         (with_pool (Example.interp Example.healthy_pool) Example.healthy_pool)
         Example.model true None 4 true 2 "output-variance" "default" true)
  = snd (feature_importance
           (with_pool (Example.interp Example.healthy_pool) Example.broken_pool)
           Example.model true None 1 false 2 "output-variance" "default"
           true).
Proof.
  apply (@result_independent_of_execution
           (Example.interp Example.healthy_pool) Example.model true None 2
           "output-variance" "default" true
           Example.healthy_pool Example.broken_pool 4 1 true false);
    reflexivity.
Defined.

(** X7.  The exception of the first feature whose task fails reaches
    the caller, whatever the worker count and the state of the pool:
    once the prelude has succeeded, if every task before that feature
    succeeds and its own task raises [e], the call raises [e]. *)
Theorem first_task_failure_reaches_caller :
  forall (self : Interpretation) (model : Model) (ascending : bool)
         (filter_classes : option (list string)) (n_jobs : Z)
         (progressbar : bool) (n_samples : Z) (method scorer : string)
         (use_scaling : bool) (inputs : Data) (preds : ndarray)
         (labels : option ndarray) (pre post : list fid) (a : fid) (e : exn),
    let task := fi_func self model inputs preds labels method use_scaling in
    snd (prelude self model filter_classes n_jobs progressbar n_samples method)
      = Ok (inputs, preds, labels) ->
    feature_ids (data_set self) = pre ++ a :: post ->
    Forall (fun x => exists d, task x = Ok d) pre ->
    task a = Raise e ->
    snd (feature_importance self model ascending filter_classes n_jobs
           progressbar n_samples method scorer use_scaling)
    = Raise e.
Proof.
  intros self model asc fc n_jobs pb n_samples method scorer scaling
         inputs preds labels pre post a e task Hp Hids Hpre Ha.
  rewrite (run_result self model asc fc n_jobs pb n_samples method scorer
             scaling Hp).
  fold task. rewrite Hids.
  now rewrite (@sequential_first_failure task pre post a e Hpre Ha).
Qed.

(** An unknown method on a pool that works: the task of "a" fails in
    the pool and again in the current process. *)
Lemma first_task_failure_reaches_caller_witness :
  snd (feature_importance (Example.interp Example.healthy_pool)
         Example.model true None 4 false 5000 "gini" "default" false)
  = Raise (KeyError
             "Unrecongized method for computing feature_importance: gini").
Proof.
  apply (@first_task_failure_reaches_caller
           (Example.interp Example.healthy_pool) Example.model true None 4
           false 5000 "gini" "default" false Example.rows
           Example.baseline_predictions None [] ["b"] "a"
           (KeyError
              "Unrecongized method for computing feature_importance: gini")).
  - reflexivity.
  - reflexivity.
  - constructor.
  - reflexivity.
Defined.

End ExecutionIndependence.

(* ================================================================== *)
(** * The pool is released *)
(* ================================================================== *)

Section Release.

Lemma consume_only_animate (pb : bool) (stream : list (result dict)) :
  Forall (fun ev => ev = EvAnimate) (fst (consume pb stream)).
Proof.
  induction stream as [|r rest IH]; [constructor|].
  cbn [consume]. apply bind_Forall; [constructor|]. intros d.
  apply bind_Forall; [destruct pb; repeat constructor|]. intros _.
  apply bind_Forall; [exact IH|]. intros ds. constructor.
Qed.

Lemma run_local_only (pb : bool) (f : fid -> result dict) (args : list fid) :
  Forall (fun ev => is_local_task ev = true \/ ev = EvAnimate)
         (fst (run_local pb f args)).
Proof.
  induction args as [|a rest IH]; [constructor|].
  cbn [run_local]. apply bind_Forall; [repeat constructor; now left|].
  intros _. apply bind_Forall; [constructor|]. intros d.
  apply bind_Forall; [destruct pb; repeat constructor; now right|]. intros _.
  apply bind_Forall; [exact IH|]. intros ds. constructor.
Qed.

Lemma attempt_and_rerun_release_nothing (self : Interpretation)
  (n_jobs : option Z) (pb : bool) (f : fid -> result dict) (args : list fid) :
  Forall (fun ev => is_release ev = false)
         (fst (parallel_attempt self n_jobs pb f args))
  /\ Forall (fun ev => is_release ev = false)
            (fst (sequential_rerun pb f args)).
Proof.
  split.
  - unfold parallel_attempt. destruct (option_Z_eqb n_jobs 1); [constructor|].
    apply bind_Forall; [repeat constructor|]. intros _.
    eapply Forall_impl; [|apply consume_only_animate]. now intros ev ->.
  - unfold sequential_rerun. apply bind_Forall; [repeat constructor|].
    intros _. eapply Forall_impl; [|apply run_local_only].
    intros ev [H| ->]; [now destruct ev|reflexivity].
Qed.

(** X8.  A pool that was created is released, once, in the order close,
    join, terminate, after all the work on the tasks and before the
    importances are checked and normalized; this on every path: success
    in the pool, fallback, failure of a task.  A call that fails before
    the pool exists releases nothing. *)
Theorem pool_released_once :
  forall (self : Interpretation) (model : Model) (ascending : bool)
         (filter_classes : option (list string)) (n_jobs : Z)
         (progressbar : bool) (n_samples : Z) (method scorer : string)
         (use_scaling : bool),
    let run := feature_importance self model ascending filter_classes
                 n_jobs progressbar n_samples method scorer use_scaling in
    let pre := prelude self model filter_classes n_jobs progressbar
                 n_samples method in
    (forall shared, snd pre = Ok shared ->
       exists before after,
         fst run = before ++ [EvPoolClose; EvPoolJoin; EvPoolTerminate]
                          ++ after
         /\ In (EvPoolCreate (resolve_n_jobs n_jobs)) before
         /\ Forall (fun ev => is_release ev = false) before
         /\ Forall (fun ev => finish_event ev = true) after)
    /\ (forall e, snd pre = Raise e -> filter is_release (fst run) = []).
Proof.
  intros self model asc fc n_jobs pb n_samples method scorer scaling run pre.
  split.
  - intros [[inputs preds] labels] Hp.
    set (task := fi_func self model inputs preds labels method scaling).
    set (ids := feature_ids (data_set self)).
    destruct (attempt_and_rerun_release_nothing self (resolve_n_jobs n_jobs)
                pb task ids) as [Ha Hr].
    assert (Hpre : Forall (fun ev => is_release ev = false) (fst pre)).
    { eapply Forall_impl; [|apply prelude_events].
      intros ev [H _]. now destruct ev. }
    assert (Hcreate : In (EvPoolCreate (resolve_n_jobs n_jobs)) (fst pre)).
    { destruct (prelude_inv self model fc n_jobs pb n_samples method Hp)
        as (_ & _ & _ & _ & _ & Htr).
      unfold pre. rewrite Htr. apply in_or_app. right. cbn. auto. }
    unfold run, feature_importance. rewrite fst_bind.
    rewrite (raw_after_prelude self model fc n_jobs pb n_samples method
               scaling Hp).
    fold task. fold ids. fold pre. cbn [fst snd].
    rewrite dispatch_cases.
    destruct (snd (parallel_attempt self (resolve_n_jobs n_jobs) pb task ids))
      as [ds|e]; cbn [fst snd].
    + exists (fst pre ++ fst (parallel_attempt self (resolve_n_jobs n_jobs)
                               pb task ids)),
             (fst (finish asc (merge ds))).
      repeat split.
      * change (fst release_pool)
          with [EvPoolClose; EvPoolJoin; EvPoolTerminate].
        rewrite <- !app_assoc. reflexivity.
      * apply in_or_app. now left.
      * apply Forall_app. now split.
      * apply finish_events.
    + rewrite sequential_rerun_result.
      exists (fst pre ++ fst (parallel_attempt self (resolve_n_jobs n_jobs)
                               pb task ids)
                      ++ fst (sequential_rerun pb task ids)).
      destruct (sequential_results task ids) as [ds|e'].
      * exists (fst (finish asc (merge ds))). repeat split.
        -- change (fst release_pool)
             with [EvPoolClose; EvPoolJoin; EvPoolTerminate].
           rewrite <- !app_assoc. reflexivity.
        -- apply in_or_app. now left.
        -- repeat (apply Forall_app; split); assumption.
        -- apply finish_events.
      * exists []. repeat split.
        -- change (fst release_pool)
             with [EvPoolClose; EvPoolJoin; EvPoolTerminate].
           rewrite <- !app_assoc. reflexivity.
        -- apply in_or_app. now left.
        -- repeat (apply Forall_app; split); assumption.
        -- constructor.
  - intros e He. unfold run, feature_importance. rewrite fst_bind.
    rewrite (raw_prelude_raises self model fc n_jobs pb n_samples method
               scaling He).
    cbn [fst snd]. rewrite app_nil_r. apply filter_none.
    eapply Forall_impl; [|apply prelude_events].
    intros ev [H _]. now destruct ev.
Qed.

Lemma pool_released_once_witness :
  (exists before after,
      fst (feature_importance (Example.interp Example.broken_pool)
             Example.model true None (-1) true 5000 "output-variance"
             "default" false)
      = before ++ [EvPoolClose; EvPoolJoin; EvPoolTerminate] ++ after
      /\ In (EvPoolCreate None) before
      /\ Forall (fun ev => is_release ev = false) before
      /\ Forall (fun ev => finish_event ev = true) after)
  /\ filter is_release
       (fst (feature_importance (Example.interp Example.no_pool)
               Example.model true None (-1) true 5000 "output-variance"
               "default" false)) = [].
Proof.
  split.
  - apply (proj1 (pool_released_once (Example.interp Example.broken_pool)
                    Example.model true None (-1) true 5000 "output-variance"
                    "default" false)
             (Example.rows, Example.baseline_predictions, None)).
    reflexivity.
  - apply (proj2 (pool_released_once (Example.interp Example.no_pool)
                    Example.model true None (-1) true 5000 "output-variance"
                    "default" false)
             (OtherError "OSError: cannot allocate memory")).
    reflexivity.
Defined.

End Release.

(* ================================================================== *)
(** * Failing before any work *)
(* ================================================================== *)

Section FailFast.

(** X9.  A [filter_classes] with a member outside the model's target
    classes makes the call fail with an AssertionError before anything
    else happens: nothing is sampled, the model is never asked for a
    prediction, no pool is created. *)
Theorem invalid_filter_classes_fail_first :
  forall (self : Interpretation) (model : Model) (ascending : bool)
         (classes : list string) (c : string) (n_jobs : Z)
         (progressbar : bool) (n_samples : Z) (method scorer : string)
         (use_scaling : bool),
    In c classes -> ~ In c (target_names model) ->
    exists msg,
      feature_importance self model ascending (Some classes) n_jobs
        progressbar n_samples method scorer use_scaling
      = ([], Raise (AssertionError msg)).
Proof.
  intros self model asc classes c n_jobs pb n_samples method scorer scaling
         Hin Hout.
  assert (F : forallb (fun i => existsb (String.eqb i) (target_names model))
                      classes = false).
  { destruct (forallb _ classes) eqn:E; [|reflexivity].
    rewrite forallb_forall in E. specialize (E c Hin).
    apply existsb_exists in E. destruct E as (x & Hx & Ex).
    apply String.eqb_eq in Ex. subst x. contradiction. }
  destruct classes as [|c0 l]; [contradiction|].
  unfold feature_importance, raw_importances, prelude, check_filter_classes.
  rewrite F. eexists. reflexivity.
Qed.

Lemma invalid_filter_classes_fail_first_witness :
  exists msg,
    feature_importance (Example.interp Example.healthy_pool) Example.model
      true (Some ["yes"; "maybe"]) (-1) true 5000 "output-variance" "default"
      false
    = ([], Raise (AssertionError msg)).
Proof.
  apply (@invalid_filter_classes_fail_first
           (Example.interp Example.healthy_pool) Example.model true
           ["yes"; "maybe"] "maybe").
  - simpl. tauto.
  - simpl. intros [H|[H|[]]]; discriminate.
Defined.

(** X10.  Asking for conditional-permutation when no training labels
    were loaded makes the call fail with a FeatureImportanceError
    before any sampling or prediction, whatever the other arguments
    (given a [filter_classes] that passes its check). *)
Theorem missing_labels_fail_first :
  forall (self : Interpretation) (model : Model) (ascending : bool)
         (filter_classes : option (list string)) (n_jobs : Z)
         (progressbar : bool) (n_samples : Z) (scorer : string)
         (use_scaling : bool),
    passes_validation model filter_classes ->
    training_labels self = None ->
    exists msg,
      feature_importance self model ascending filter_classes n_jobs
        progressbar n_samples "conditional-permutation" scorer use_scaling
      = ([], Raise (FeatureImportanceError msg)).
Proof.
  intros self model asc fc n_jobs pb n_samples scorer scaling Hv Hl.
  unfold feature_importance, raw_importances, prelude.
  rewrite (check_filter_classes_passes model fc Hv).
  unfold resolve_training_labels. rewrite Hl. cbn.
  eexists. reflexivity.
Qed.

Lemma missing_labels_fail_first_witness :
  exists msg,
    feature_importance
      {| data_set := Example.dataset; training_labels := None;
         DataManager := Example.manager;
         multiprocessing := Example.healthy_pool |}
      Example.model true None (-1) true 5000 "conditional-permutation"
      "default" false
    = ([], Raise (FeatureImportanceError msg)).
Proof.
  apply missing_labels_fail_first.
  - exact I.
  - reflexivity.
Defined.

(** X11.  When the model fails on the baseline rows, its exception
    reaches the caller and the call stops there: no pool is created, no
    task is run, nothing is released. *)
Theorem baseline_prediction_failure :
  forall (self : Interpretation) (model : Model) (ascending : bool)
         (filter_classes : option (list string)) (n_jobs : Z)
         (progressbar : bool) (n_samples : Z) (method scorer : string)
         (use_scaling : bool) (labels : option ndarray) (inputs : Data)
         (e : exn),
    let run := feature_importance self model ascending filter_classes
                 n_jobs progressbar n_samples method scorer use_scaling in
    passes_validation model filter_classes ->
    resolve_training_labels self method = ret labels ->
    snd (choose_inputs self n_samples) = Ok inputs ->
    predict model inputs = Raise e ->
    snd run = Raise e
    /\ filter is_pool_create (fst run) = []
    /\ filter is_local_task (fst run) = []
    /\ filter is_release (fst run) = []
    /\ filter is_predict (fst run) = [EvPredict inputs].
Proof.
  intros self model asc fc n_jobs pb n_samples method scorer scaling labels
         inputs e run Hv Hl Hc Hp.
  assert (E : run = (fst (choose_inputs self n_samples) ++ [EvPredict inputs],
                     Raise e)).
  { unfold run, feature_importance, raw_importances, prelude.
    rewrite (check_filter_classes_passes model fc Hv), Hl.
    cbn [bind ret app].
    destruct (choose_inputs self n_samples) as [tc [i|e0]];
      cbn [snd] in Hc; [|discriminate].
    inversion Hc; subst i. cbn [bind emit lift app fst]. rewrite Hp.
    reflexivity. }
  rewrite E. cbn [fst snd]. rewrite !filter_app.
  destruct (choose_inputs_cases self n_samples) as [[_ C]|[_ C]]; rewrite C;
    repeat split; reflexivity.
Qed.

Lemma baseline_prediction_failure_witness :
  snd (feature_importance (Example.interp Example.healthy_pool)
         {| target_names := ["yes"; "no"];
            predict := fun _ => Raise (OtherError "NotFittedError");
            _get_static_predictor := Example.predict_3a;
            scorers_default := Example.mae |}
         true None (-1) true 2 "output-variance" "default" false)
  = Raise (OtherError "NotFittedError").
Proof.
  apply (@baseline_prediction_failure
           (Example.interp Example.healthy_pool)
           {| target_names := ["yes"; "no"];
              predict := fun _ => Raise (OtherError "NotFittedError");
              _get_static_predictor := Example.predict_3a;
              scorers_default := Example.mae |}
           true None (-1) true 2 "output-variance" "default" false
           None (rev (firstn 2 Example.rows))
           (OtherError "NotFittedError")).
  - exact I.
  - reflexivity.
  - reflexivity.
  - reflexivity.
Defined.

End FailFast.

(* ================================================================== *)
(** * The order and the size of the returned entries *)
(* ================================================================== *)

Section ResultOrder.

Local Open Scope Qc_scope.

(** What [finish] returns, in one formula. *)
Lemma finish_result (asc : bool) (d : dict) :
  snd (finish asc d)
  = if ngtb (series_sum d) (of_Z 0)
    then Ok (map (fun kv => (fst kv,
                             divide_zerosafe_1 (snd kv)
                               (nmul one (series_sum d))))
                 (sort_values asc d))
    else Raise (FeatureImportanceError positivity_msg).
Proof.
  unfold finish.
  rewrite (series_sum_perm (sort_values_perm asc d)).
  destruct (ngtb (series_sum d) (of_Z 0)); cbn [negb].
  - rewrite snd_bind. cbn [emit lift snd]. apply divide_zerosafe_ones.
  - reflexivity.
Qed.

(** X12.  The [ascending] flag changes the order of the returned
    entries and nothing else: for any two values of the flag the two
    calls either both return, with the same entries in possibly
    different order, or both raise the same exception. *)
Theorem ascending_only_reorders :
  forall (self : Interpretation) (model : Model) (asc1 asc2 : bool)
         (filter_classes : option (list string)) (n_jobs : Z)
         (progressbar : bool) (n_samples : Z) (method scorer : string)
         (use_scaling : bool),
    let run1 := feature_importance self model asc1 filter_classes n_jobs
                  progressbar n_samples method scorer use_scaling in
    let run2 := feature_importance self model asc2 filter_classes n_jobs
                  progressbar n_samples method scorer use_scaling in
    (forall s1, snd run1 = Ok s1 ->
                exists s2, snd run2 = Ok s2 /\ Permutation s1 s2)
    /\ (forall e, snd run1 = Raise e -> snd run2 = Raise e).
Proof.
  intros self model asc1 asc2 fc n_jobs pb n_samples method scorer scaling
         run1 run2.
  unfold run1, run2, feature_importance. rewrite !snd_bind.
  destruct (snd (raw_importances self model fc n_jobs pb n_samples method
                   scaling)) as [d|e0].
  - rewrite !finish_result.
    destruct (ngtb (series_sum d) (of_Z 0)).
    + split; [|discriminate]. intros s1 H. inversion H; subst.
      eexists. split; [reflexivity|].
      apply Permutation_map.
      transitivity d; [apply sort_values_perm|].
      symmetry. apply sort_values_perm.
    + split; [discriminate|]. intros e H. exact H.
  - split; [discriminate|]. intros e H. exact H.
Qed.

Lemma ascending_only_reorders_witness :
  exists s2,
    snd (feature_importance (Example.interp Example.healthy_pool)
           Example.model false None (-1) false 5000 "output-variance"
           "default" false) = Ok s2
    /\ Permutation [("b", zero); ("a", one)] s2.
Proof.
  apply (proj1 (ascending_only_reorders
                  (Example.interp Example.healthy_pool) Example.model
                  true false None (-1) false 5000 "output-variance"
                  "default" false)).
  num_refl.
Defined.

Lemma precedes_in_order (asc : bool) (x y : fid * num) :
  is_finite (snd x) -> is_finite (snd y) ->
  (precedes asc x y = true -> in_order asc x y)
  /\ (precedes asc x y = false -> in_order asc y x).
Proof.
  destruct x as [kx [a| | |]], y as [ky [b| | |]]; cbn [snd];
    try contradiction; intros _ _.
  unfold precedes, in_order; cbn [snd is_nan].
  destruct asc; split; intros H.
  - apply nltb_Fin in H. now apply Qclt_le_weak.
  - apply Qcnot_lt_le. intros L. apply nltb_Fin in L. congruence.
  - apply ngtb_Fin in H. now apply Qclt_le_weak.
  - apply Qcnot_lt_le. intros L. apply ngtb_Fin in L. congruence.
Qed.

Lemma in_order_trans (asc : bool) (x y z : fid * num) :
  in_order asc x y -> in_order asc y z -> in_order asc x z.
Proof.
  destruct x as [kx [a| | |]], y as [ky [b| | |]], z as [kz [c| | |]];
    unfold in_order; cbn [snd]; try contradiction.
  destruct asc; intros H1 H2; eapply Qcle_trans; eassumption.
Qed.

Lemma sort_insert_sorted (asc : bool) (x : fid * num) (l : dict) :
  is_finite (snd x) -> Forall (fun kv => is_finite (snd kv)) l ->
  StronglySorted (in_order asc) l ->
  StronglySorted (in_order asc) (sort_insert asc x l).
Proof.
  intros Hx Hl Hs. induction Hs as [|y l Hs IH Hy]; cbn [sort_insert].
  - repeat constructor.
  - inversion Hl as [|? ? Hfy Hl']; subst.
    destruct (precedes_in_order asc x y Hx Hfy) as [P1 P2].
    destruct (precedes asc x y).
    + constructor; [now constructor|].
      constructor; [now apply P1|].
      eapply Forall_impl; [|exact Hy]. intros z Hz.
      eapply in_order_trans; [apply P1; reflexivity|exact Hz].
    + constructor; [now apply IH|].
      apply Forall_forall. intros z Hz.
      apply (Permutation_in _ (sort_insert_perm asc x l)) in Hz.
      destruct Hz as [<-|Hz]; [now apply P2|].
      rewrite Forall_forall in Hy. now apply Hy.
Qed.

Lemma sort_values_sorted (asc : bool) (s : dict) :
  Forall (fun kv => is_finite (snd kv)) s ->
  StronglySorted (in_order asc) (sort_values asc s).
Proof.
  unfold sort_values. induction 1 as [|x s Hx Hs IH]; cbn [fold_right].
  - constructor.
  - apply sort_insert_sorted; [exact Hx| |exact IH].
    apply Forall_forall. intros z Hz.
    apply (Permutation_in _ (sort_values_perm asc s)) in Hz.
    rewrite Forall_forall in Hs. now apply Hs.
Qed.

Lemma member_le_sum (qs : list Qc) (q : Qc) :
  Forall (fun x => Q2Qc 0 <= x) qs -> In q qs -> q <= Qc_sum qs.
Proof.
  induction 1 as [|x qs Hx Hq IH]; intros Hin; [contradiction|].
  assert (S : Q2Qc 0 <= Qc_sum qs).
  { clear IH Hin. induction Hq as [|y qs Hy _ IH]; [apply Qcle_refl|].
    cbn [Qc_sum fold_right]. fold (Qc_sum qs).
    replace (Q2Qc 0) with (Q2Qc 0 + Q2Qc 0) by ring.
    now apply Qcplus_le_compat. }
  cbn [Qc_sum fold_right]. fold (Qc_sum qs). destruct Hin as [->|Hin].
  - replace q with (q + Q2Qc 0) at 1 by ring.
    apply Qcplus_le_compat; [apply Qcle_refl|exact S].
  - replace q with (Q2Qc 0 + q) by ring.
    apply Qcplus_le_compat; [exact Hx|now apply IH].
Qed.

(** The returned series of a run on finite raw importances: the sorted
    raw entries, each divided by the positive sum. *)
Lemma finite_run_shape (self : Interpretation) (model : Model) (asc : bool)
  (fc : option (list string)) (n_jobs : Z) (pb : bool) (n_samples : Z)
  (method scorer : string) (scaling : bool) (importances series : dict) :
  snd (raw_importances self model fc n_jobs pb n_samples method scaling)
    = Ok importances ->
  Forall (fun kv => is_finite (snd kv)) importances ->
  snd (feature_importance self model asc fc n_jobs pb n_samples method
         scorer scaling) = Ok series ->
  exists (qs : list Qc) (c : Qc),
    map snd importances = map Fin qs
    /\ Forall (fun q => Q2Qc 0 <= q) qs
    /\ c = Qc_sum qs /\ Q2Qc 0 < c
    /\ series = map (fun kv => (fst kv,
                                match snd kv with
                                | Fin q => Fin (q / c)
                                | v => v
                                end))
                    (sort_values asc importances).
Proof.
  intros Hraw Hfin Hok.
  destruct (raw_importances_shape self model fc n_jobs pb n_samples method
              scaling Hraw) as (_ & Hnn & _).
  assert (Hvals : Forall (fun v => is_finite v /\ not_negative v)
                         (map snd importances)).
  { apply Forall_forall. intros v Hv. split.
    - apply in_map_iff in Hv. destruct Hv as (kv & <- & Hkv).
      rewrite Forall_forall in Hfin. now apply Hfin.
    - rewrite Forall_forall in Hnn. now apply Hnn. }
  destruct (finite_values Hvals) as (qs & Eqs & Hqs).
  assert (Hsum : series_sum importances = Fin (Qc_sum qs)).
  { unfold series_sum. now rewrite Eqs, filter_Fin, nsum_Fin. }
  unfold feature_importance in Hok. rewrite snd_bind, Hraw in Hok.
  rewrite finish_result, Hsum in Hok.
  destruct (ngtb (Fin (Qc_sum qs)) (of_Z 0)) eqn:G; [|discriminate].
  apply ngtb_Fin in G. injection Hok as Hser.
  exists qs, (Qc_sum qs). repeat split; auto.
  rewrite <- Hser. apply map_ext_in. intros [k v] Hkv. cbn [fst snd].
  f_equal.
  assert (Fv : is_finite v).
  { apply (Permutation_in _ (sort_values_perm asc importances)) in Hkv.
    rewrite Forall_forall in Hfin. exact (Hfin _ Hkv). }
  destruct v as [q| | |]; try contradiction.
  unfold divide_zerosafe_1. cbn [nmul one].
  assert (Hc : Q2Qc 1 * Qc_sum qs <> Q2Qc 0).
  { rewrite Qcmult_1_l. intros E. rewrite E in G.
    exact (Qclt_not_le _ _ G (Qcle_refl _)). }
  replace (neqb (Fin (Q2Qc 1 * Qc_sum qs)) zero) with false.
  - rewrite andb_false_r. cbn [ndiv].
    replace (Qc_eq_bool (Q2Qc 1 * Qc_sum qs) (Q2Qc 0)) with false.
    + f_equal. now rewrite Qcmult_1_l.
    + symmetry. destruct (Qc_eq_bool _ _) eqn:E; [|reflexivity].
      apply Qc_eq_bool_true in E. contradiction.
  - symmetry. destruct (neqb _ zero) eqn:E; [|reflexivity].
    apply neqb_Fin in E. contradiction.
Qed.

(** X13.  The returned series is ordered by value as asked: every
    entry is at most (with [ascending]) or at least (without) each
    entry that follows it.  For raw importances that are finite
    numbers. *)
Theorem result_sorted :
  forall (self : Interpretation) (model : Model) (ascending : bool)
         (filter_classes : option (list string)) (n_jobs : Z)
         (progressbar : bool) (n_samples : Z) (method scorer : string)
         (use_scaling : bool) (importances series : dict),
    snd (raw_importances self model filter_classes n_jobs progressbar
           n_samples method use_scaling) = Ok importances ->
    Forall (fun kv => is_finite (snd kv)) importances ->
    snd (feature_importance self model ascending filter_classes n_jobs
           progressbar n_samples method scorer use_scaling) = Ok series ->
    StronglySorted (in_order ascending) series.
Proof.
  intros self model asc fc n_jobs pb n_samples method scorer scaling
         importances series Hraw Hfin Hok.
  destruct (finite_run_shape self model asc fc n_jobs pb n_samples method
              scorer scaling Hraw Hfin Hok)
    as (qs & c & _ & _ & _ & Hc & ->).
  pose proof (sort_values_sorted asc Hfin) as Hs.
  assert (Hf : Forall (fun kv => is_finite (snd kv))
                      (sort_values asc importances)).
  { apply Forall_forall. intros z Hz.
    apply (Permutation_in _ (sort_values_perm asc importances)) in Hz.
    rewrite Forall_forall in Hfin. now apply Hfin. }
  assert (Hinv : Q2Qc 0 <= / c)
    by (apply Qc_nonneg_inv; now apply Qclt_le_weak).
  revert Hf. generalize (sort_values asc importances) Hs. clear Hs.
  intros l Hs. induction Hs as [|x l Hs IH Hx]; intros Hf; cbn [map];
    [constructor|].
  inversion Hf as [|? ? Fx Fl]; subst.
  constructor; [now apply IH|].
  apply Forall_forall. intros z Hz. apply in_map_iff in Hz.
  destruct Hz as (y & <- & Hy).
  rewrite Forall_forall in Hx. specialize (Hx y Hy).
  rewrite Forall_forall in Fl. specialize (Fl y Hy).
  destruct x as [kx [a| | |]], y as [ky [b| | |]]; cbn [snd] in *;
    try contradiction.
  unfold in_order in *. cbn [fst snd] in *. unfold Qcdiv.
  destruct asc; now apply Qcmult_le_compat_r.
Qed.

Lemma result_sorted_witness :
  StronglySorted (in_order false) [("a", one); ("b", zero)].
Proof.
  apply (@result_sorted (Example.interp Example.healthy_pool) Example.model
           false None (-1) false 5000 "output-variance" "default" false
           [("a", of_Z 6); ("b", zero)]).
  - num_refl.
  - repeat constructor.
  - num_refl.
Defined.

(** X14.  No returned entry exceeds 1: every entry is a finite number
    between 0 and 1.  For raw importances that are finite numbers. *)
Theorem entries_in_unit_interval :
  forall (self : Interpretation) (model : Model) (ascending : bool)
         (filter_classes : option (list string)) (n_jobs : Z)
         (progressbar : bool) (n_samples : Z) (method scorer : string)
         (use_scaling : bool) (importances series : dict),
    snd (raw_importances self model filter_classes n_jobs progressbar
           n_samples method use_scaling) = Ok importances ->
    Forall (fun kv => is_finite (snd kv)) importances ->
    snd (feature_importance self model ascending filter_classes n_jobs
           progressbar n_samples method scorer use_scaling) = Ok series ->
    Forall (fun kv => unit_interval (snd kv)) series.
Proof.
  intros self model asc fc n_jobs pb n_samples method scorer scaling
         importances series Hraw Hfin Hok.
  destruct (finite_run_shape self model asc fc n_jobs pb n_samples method
              scorer scaling Hraw Hfin Hok)
    as (qs & c & Eqs & Hqs & Ec & Hc & ->).
  apply Forall_forall. intros kv Hkv. apply in_map_iff in Hkv.
  destruct Hkv as ([k v] & <- & Hin). cbn [fst snd].
  apply (Permutation_in _ (sort_values_perm asc importances)) in Hin.
  assert (Hv : In v (map Fin qs)).
  { rewrite <- Eqs. now apply (in_map snd _ (k, v)). }
  apply in_map_iff in Hv. destruct Hv as (q & <- & Hq).
  cbn [unit_interval]. unfold Qcdiv.
  assert (Hq0 : Q2Qc 0 <= q) by (rewrite Forall_forall in Hqs; now apply Hqs).
  split.
  - apply Qc_nonneg_mult; [exact Hq0|].
    apply Qc_nonneg_inv. now apply Qclt_le_weak.
  - apply Qcmult_lt_0_le_reg_r with c; [exact Hc|].
    rewrite <- Qcmult_assoc, Qcmult_inv_l, Qcmult_1_r, Qcmult_1_l.
    + rewrite Ec. now apply member_le_sum.
    + intros E. rewrite E in Hc. exact (Qclt_not_le _ _ Hc (Qcle_refl _)).
Qed.

Lemma entries_in_unit_interval_witness :
  Forall (fun kv => unit_interval (snd kv)) [("b", zero); ("a", one)].
Proof.
  apply (@entries_in_unit_interval (Example.interp Example.healthy_pool)
           Example.model true None (-1) false 5000 "output-variance"
           "default" false [("a", of_Z 6); ("b", zero)]).
  - num_refl.
  - repeat constructor.
  - num_refl.
Defined.

End ResultOrder.

(* ================================================================== *)
(** * The progress bar *)
(* ================================================================== *)

Section Progress.

Lemma prelude_no_progress (self : Interpretation) (model : Model)
  (fc : option (list string)) (n_jobs : Z) (n_samples : Z) (method : string) :
  Forall (fun ev => is_progress ev = false)
         (fst (prelude self model fc n_jobs false n_samples method)).
Proof.
  unfold prelude.
  destruct (check_filter_classes_cases model fc) as [Ec|[msg Ec]];
    rewrite Ec; [|constructor].
  destruct (resolve_training_labels_cases self method) as [[l El]|[msg El]];
    rewrite El; [|constructor].
  cbn [bind ret app].
  assert (Hc : Forall (fun ev => is_progress ev = false)
                 (fst (choose_inputs self n_samples))).
  { destruct (choose_inputs_cases self n_samples) as [[_ E]|[_ E]];
      rewrite E; repeat constructor. }
  destruct (choose_inputs self n_samples) as [tc [i|e]]; [|exact Hc].
  cbn [fst] in Hc. cbn [bind emit lift app].
  destruct (predict model i) as [p|e]; cbn [bind emit lift app fst].
  - destruct (Pool (multiprocessing self) (resolve_n_jobs n_jobs)) as [[]|e];
      cbn [bind emit ret lift app fst];
      apply Forall_app; split; try exact Hc; repeat constructor.
  - apply Forall_app; split; [exact Hc|]. repeat constructor.
Qed.

Lemma dispatch_no_progress (self : Interpretation) (n_jobs : option Z)
  (f : fid -> result dict) (args : list fid) :
  Forall (fun ev => is_progress ev = false)
         (fst (dispatch self n_jobs false f args)).
Proof.
  assert (Ha : Forall (fun ev => is_progress ev = false)
                 (fst (parallel_attempt self n_jobs false f args))).
  { unfold parallel_attempt. destruct (option_Z_eqb n_jobs 1); [constructor|].
    apply bind_Forall; [repeat constructor|]. intros _.
    induction (pool_stream _ _) as [|r rest IH]; [constructor|].
    cbn [consume]. apply bind_Forall; [constructor|]. intros d.
    apply bind_Forall; [constructor|]. intros _.
    apply bind_Forall; [exact IH|]. intros ds. constructor. }
  assert (Hr : Forall (fun ev => is_progress ev = false)
                 (fst (sequential_rerun false f args))).
  { clear Ha. unfold sequential_rerun.
    apply bind_Forall; [repeat constructor|].
    intros _. induction args as [|a rest IH]; [constructor|].
    cbn [run_local]. apply bind_Forall; [repeat constructor|]. intros _.
    apply bind_Forall; [constructor|]. intros d.
    apply bind_Forall; [constructor|]. intros _.
    apply bind_Forall; [exact IH|]. intros ds. constructor. }
  rewrite dispatch_cases.
  destruct (snd (parallel_attempt self n_jobs false f args)); cbn [fst];
    repeat (apply Forall_app; split); auto; repeat constructor.
Qed.

(** X15.  Without progress bar no progress bar is created and none is
    ever advanced, on any path of the call. *)
Theorem no_progress_without_bar :
  forall (self : Interpretation) (model : Model) (ascending : bool)
         (filter_classes : option (list string)) (n_jobs : Z)
         (n_samples : Z) (method scorer : string) (use_scaling : bool),
    filter is_progress
      (fst (feature_importance self model ascending filter_classes n_jobs
              false n_samples method scorer use_scaling))
    = [].
Proof.
  intros self model asc fc n_jobs n_samples method scorer scaling.
  apply filter_none. unfold feature_importance, raw_importances.
  apply bind_Forall.
  - apply bind_Forall; [apply prelude_no_progress|].
    intros [[inputs preds] labels].
    apply bind_Forall; [apply dispatch_no_progress|]. intros ds. constructor.
  - intros d. eapply Forall_impl; [|apply finish_events].
    intros ev H. now destruct ev.
Qed.

Lemma fst_bind_ret {A B} (m : M A) (g : A -> B) :
  fst (bind m (fun x => ret (g x))) = fst m.
Proof.
  destruct m as [t [a|e]]; cbn [bind ret fst]; [|reflexivity].
  apply app_nil_r.
Qed.

Lemma consume_step (d : dict) (rest : list (result dict)) :
  fst (consume true (Ok d :: rest)) = EvAnimate :: fst (consume true rest).
Proof.
  cbn [consume]. rewrite fst_bind. cbn [lift fst snd app].
  rewrite fst_bind. cbn [emit fst snd app]. f_equal.
  apply fst_bind_ret.
Qed.

Lemma consume_ticks_all (stream : list (result dict)) (ds : list dict) :
  sequence stream = Ok ds ->
  length (filter is_animate (fst (consume true stream))) = length stream.
Proof.
  revert ds. induction stream as [|r rest IH]; intros ds H; [reflexivity|].
  cbn [sequence] in H. destruct r as [d|e]; cbn [rbind] in H; [|discriminate].
  destruct (sequence rest) as [ds'|e] eqn:E; cbn [rbind] in H; [|discriminate].
  rewrite consume_step. cbn [filter is_animate length]. f_equal.
  exact (IH ds' eq_refl).
Qed.

Lemma consume_ticks_prefix (prefix : list (result dict)) (e : exn) :
  Forall (fun r => exists d, r = Ok d) prefix ->
  length (filter is_animate (fst (consume true (prefix ++ [Raise e]))))
  = length prefix.
Proof.
  induction 1 as [|r prefix [d ->] _ IH]; [reflexivity|].
  cbn [app]. rewrite consume_step. cbn [filter is_animate length].
  now f_equal.
Qed.

Lemma run_local_step (f : fid -> result dict) (a : fid) (args : list fid)
  (d : dict) :
  f a = Ok d ->
  fst (run_local true f (a :: args))
  = EvLocalTask a :: EvAnimate :: fst (run_local true f args).
Proof.
  intros Ea. cbn [run_local]. rewrite fst_bind. cbn [emit fst snd app].
  f_equal. rewrite fst_bind, Ea. cbn [lift fst snd app].
  rewrite fst_bind. cbn [emit fst snd app]. f_equal.
  apply fst_bind_ret.
Qed.

Lemma run_local_ticks (f : fid -> result dict) (args : list fid)
  (ds : list dict) :
  sequential_results f args = Ok ds ->
  length (filter is_animate (fst (run_local true f args))) = length args.
Proof.
  unfold sequential_results. revert ds.
  induction args as [|a args IH]; intros ds H; [reflexivity|].
  cbn [map sequence] in H.
  destruct (f a) as [d|e] eqn:Ea; cbn [rbind] in H; [|discriminate].
  destruct (sequence (map f args)) as [ds'|e'] eqn:E; cbn [rbind] in H;
    [|discriminate].
  rewrite (@run_local_step f a args d Ea). cbn [filter is_animate length].
  f_equal. exact (IH ds' eq_refl).
Qed.

Lemma in_firstn {A} (k : nat) (l : list A) (x : A) :
  In x (firstn k l) -> In x l.
Proof.
  revert l. induction k as [|k IH]; intros [|y l] H; cbn [firstn] in H;
    try contradiction.
  destruct H as [<-|H]; [now left|right; now apply IH].
Qed.

Lemma filter_run_dispatch (P : event -> bool) (self : Interpretation)
  (model : Model) (asc : bool) (fc : option (list string)) (n_jobs : Z)
  (pb : bool) (n_samples : Z) (method scorer : string) (scaling : bool)
  (inputs : Data) (preds : ndarray) (labels : option ndarray) :
  (forall ev, prelude_event ev = true -> P ev = false) ->
  (forall ev, finish_event ev = true -> P ev = false) ->
  snd (prelude self model fc n_jobs pb n_samples method)
    = Ok (inputs, preds, labels) ->
  filter P (fst (feature_importance self model asc fc n_jobs pb n_samples
                   method scorer scaling))
  = filter P (fst (dispatch self (resolve_n_jobs n_jobs) pb
                     (fi_func self model inputs preds labels method scaling)
                     (feature_ids (data_set self)))).
Proof.
  intros Hpre Hfin Hp. unfold feature_importance. rewrite fst_bind.
  rewrite (raw_after_prelude self model fc n_jobs pb n_samples method
             scaling Hp).
  cbn [fst snd]. rewrite !filter_app, filter_prelude by exact Hpre.
  destruct (snd (dispatch _ _ _ _ _)) as [ds|e].
  - rewrite filter_finish by exact Hfin. now rewrite app_nil_r.
  - now rewrite app_nil_r.
Qed.

(** X16.  With the progress bar, in a call whose tasks all succeed:
    when the pool delivers every result the bar is advanced once per
    feature; when the pool breaks after [k] results the bar is advanced
    for the results delivered and again once per feature during the
    sequential run, so more often than there are features as soon as a
    result had been delivered. *)
Theorem progress_ticks :
  forall (self : Interpretation) (model : Model) (ascending : bool)
         (filter_classes : option (list string)) (n_jobs : Z)
         (n_samples : Z) (method scorer : string) (use_scaling : bool)
         (inputs : Data) (preds : ndarray) (labels : option ndarray)
         (ds : list dict),
    let task := fi_func self model inputs preds labels method use_scaling in
    let ids := feature_ids (data_set self) in
    let ticks :=
      length (filter is_animate
                (fst (feature_importance self model ascending filter_classes
                        n_jobs true n_samples method scorer use_scaling))) in
    snd (prelude self model filter_classes n_jobs true n_samples method)
      = Ok (inputs, preds, labels) ->
    sequential_results task ids = Ok ds ->
    n_jobs <> 1%Z ->
    (pool_fault (multiprocessing self) = None -> ticks = length ids)
    /\ (forall k e, pool_fault (multiprocessing self) = Some (k, e) ->
                    ticks = (Nat.min k (length ids) + length ids)%nat).
Proof.
  intros self model asc fc n_jobs n_samples method scorer scaling
         inputs preds labels ds task ids ticks Hp Hok Hn.
  assert (Hone : option_Z_eqb (resolve_n_jobs n_jobs) 1 = false).
  { unfold resolve_n_jobs. destruct (n_jobs <? 0)%Z; [reflexivity|].
    cbn [option_Z_eqb]. now apply Z.eqb_neq. }
  assert (Hticks : ticks
                   = length (filter is_animate
                               (fst (dispatch self (resolve_n_jobs n_jobs)
                                       true task ids)))).
  { unfold ticks.
    rewrite (@filter_run_dispatch is_animate self model asc fc n_jobs true
               n_samples method scorer scaling inputs preds labels);
      [reflexivity| | |exact Hp]; now intros []. }
  rewrite Hticks, dispatch_cases. unfold parallel_attempt. rewrite Hone.
  rewrite snd_bind, fst_bind. cbn [emit fst snd].
  rewrite consume_result.
  split.
  - intros Hf. rewrite Hf. cbn [pool_stream].
    fold (sequential_results task ids). rewrite Hok. cbn [fst app].
    cbn [filter is_animate]. rewrite filter_app, length_app.
    rewrite (consume_ticks_all (map task ids) Hok), length_map.
    cbn. lia.
  - intros k e Hf. rewrite Hf. cbn [pool_stream].
    destruct (sequence_fault (map task ids) k e) as [e' E]. rewrite E.
    assert (Hpre : Forall (fun r => exists d, r = Ok d)
                          (firstn k (map task ids))).
    { apply sequential_results_ok in Hok.
      apply Forall_forall. intros r Hr. apply in_firstn in Hr.
      apply in_map_iff in Hr. destruct Hr as (a & <- & Ha).
      clear -Hok Ha. induction Hok as [|x d xs ds' Hx _ IH];
        [contradiction|].
      destruct Ha as [<-|Ha]; [now exists d|now apply IH]. }
    unfold sequential_rerun. rewrite fst_bind. cbn [emit fst snd app].
    cbn [filter is_animate]. rewrite !filter_app, !length_app.
    cbn [filter is_animate].
    rewrite (consume_ticks_prefix e Hpre), length_firstn, length_map.
    rewrite (run_local_ticks task ids Hok).
    cbn. lia.
Qed.

(** Two features, a pool that breaks after one result: three ticks. *)
Lemma progress_ticks_witness :
  length (filter is_animate
            (fst (feature_importance (Example.interp Example.broken_pool)
                    Example.model true None (-1) true 5000 "output-variance"
                    "default" false)))
  = 3%nat.
Proof.
  destruct (@progress_ticks (Example.interp Example.broken_pool)
              Example.model true None (-1) 5000 "output-variance" "default"
              false Example.rows Example.baseline_predictions None
              [[("a", of_Z 6)]; [("b", zero)]]) as [_ H].
  - reflexivity.
  - num_refl.
  - discriminate.
  - exact (H 1%nat (OtherError "PicklingError") eq_refl).
Defined.

End Progress.

(* ================================================================== *)
(** * The task of one feature *)
(* ================================================================== *)

Section Task.

(** X17.  The task of a feature returns a dict with exactly one entry,
    keyed by that feature, whose value is never below zero; and for a
    feature that is missing from [feature_info] it fails with
    KeyError(feature id) once the column has been read, before any
    sampling or prediction is attempted (whatever the sampler and the
    predictor would do). *)
Theorem task_result_shape :
  forall (dm : DataManagerCls) (f : fid) (input_data : Data)
         (estimator_fn : Data -> result ndarray) (preds : ndarray)
         (info : fid -> option bool) (names : list fid)
         (labels : option ndarray) (method : string) (scaled : bool)
         (scorer : Scorer),
    let task := compute_feature_importance dm f input_data estimator_fn
                  preds info names labels method scaled scorer in
    (forall d, task = Ok d -> exists v, d = [(f, v)] /\ not_negative v)
    /\ (forall column, dm_getitem dm input_data names f = Ok column ->
                       info f = None -> task = Raise (KeyError f))
    /\ (forall e, dm_getitem dm input_data names f = Raise e ->
                  task = Raise e).
Proof.
  intros dm f input_data estimator_fn preds info names labels method scaled
         scorer task.
  split; [|split].
  - intros d H. exact (compute_feature_importance_inv _ _ _ _ _ _ _ _ _ _ _ H).
  - intros column Hc Hi. unfold task, compute_feature_importance.
    rewrite Hc. cbn [rbind]. rewrite Hi. reflexivity.
  - intros e He. unfold task, compute_feature_importance.
    rewrite He. reflexivity.
Qed.

Lemma task_result_shape_witness :
  compute_feature_importance Example.manager "a" Example.rows
    Example.predict_3a Example.baseline_predictions (fun _ => None)
    ["a"; "b"] None "output-variance" false Example.mae
  = Raise (KeyError "a")
  /\ compute_feature_importance Example.manager "c" Example.rows
       Example.predict_3a Example.baseline_predictions (fun _ => Some true)
       ["a"; "b"] None "output-variance" false Example.mae
     = Raise (KeyError "c").
Proof.
  split.
  - apply (proj1 (proj2 (task_result_shape Example.manager "a" Example.rows
                           Example.predict_3a Example.baseline_predictions
                           (fun _ => None) ["a"; "b"] None "output-variance"
                           false Example.mae))
             (map (fun row => nth 0 row NaN) Example.rows)).
    + reflexivity.
    + reflexivity.
  - apply (proj2 (proj2 (task_result_shape Example.manager "c" Example.rows
                           Example.predict_3a Example.baseline_predictions
                           (fun _ => Some true) ["a"; "b"] None
                           "output-variance" false Example.mae))).
    reflexivity.
Defined.

End Task.

(* ================================================================== *)
(** * The bar chart *)
(* ================================================================== *)

Section BarChart.

Variables (self : Interpretation) (pyplot : Matplotlib)
          (COLORS : list string) (model : Model)
          (filter_classes : option (list string)) (ascending : bool)
          (ax : option axes) (progressbar : bool) (n_jobs n_samples : Z)
          (method : string) (use_scaling : bool).

Lemma filter_core_map (t : list event) :
  filter is_core (map EvCore t) = map EvCore t.
Proof.
  induction t as [|ev t IH]; cbn [map filter is_core]; [reflexivity|].
  now rewrite IH.
Qed.

Lemma filter_drawing_map (t : list event) :
  filter is_drawing (map EvCore t) = [].
Proof. induction t as [|ev t IH]; cbn [map filter is_drawing]; auto. Qed.

(** X18.  [plot_feature_importance] computes before it draws, and
    draws only what was computed.  When pyplot cannot be imported the
    call raises MatplotlibUnavailableError (import error) or
    MatplotlibDisplayError (runtime error) and feature_importance is
    not even started.  Otherwise feature_importance is run once, with
    [ascending] left at True; if it raises, its exception is passed on
    and neither a figure is created nor anything drawn. *)
Theorem plot_computes_before_drawing :
  let chart := plot_feature_importance self pyplot COLORS model
                 filter_classes ascending ax progressbar n_jobs n_samples
                 method use_scaling in
  let run := feature_importance self model true filter_classes n_jobs
               progressbar n_samples method "default" use_scaling in
  (import_pyplot pyplot = ImportError ->
   exists msg,
     chart = ([EvImportPyplot], PlotRaise (MatplotlibUnavailableError msg)))
  /\ (import_pyplot pyplot = RuntimeError ->
      exists msg,
        chart = ([EvImportPyplot], PlotRaise (MatplotlibDisplayError msg)))
  /\ (import_pyplot pyplot = Imported ->
      filter is_core (fst chart) = map EvCore (fst run))
  /\ (forall e, import_pyplot pyplot = Imported -> snd run = Raise e ->
                snd chart = PlotRaise (Propagated e)
                /\ filter is_drawing (fst chart) = []).
Proof.
  intros chart run. unfold chart, plot_feature_importance. fold run.
  repeat split.
  - intros H. rewrite H. eexists. reflexivity.
  - intros H. rewrite H. eexists. reflexivity.
  - intros H. rewrite H. destruct run as [t [importances|e]]; cbn [fst].
    + destruct ax as [a|].
      * destruct (first_color COLORS) as [color|e0]; cbn [fst].
        -- destruct (plot_barh pyplot a color _); cbn [fst];
             rewrite filter_app; cbn [filter is_core];
             rewrite filter_core_map; cbn [filter is_core];
             now rewrite app_nil_r.
        -- cbn [filter is_core]. now rewrite filter_core_map.
      * destruct (subplots pyplot 1) as [[f a]|e0].
        -- destruct (first_color COLORS) as [color|e0]; cbn [fst].
           ++ destruct (plot_barh pyplot a color _); cbn [fst];
                rewrite !filter_app; cbn [filter is_core];
                rewrite filter_core_map; cbn [filter is_core];
                now rewrite !app_nil_r.
           ++ rewrite filter_app. cbn [filter is_core].
              rewrite filter_core_map. now rewrite app_nil_r.
        -- cbn [fst]. rewrite filter_app. cbn [filter is_core].
           rewrite filter_core_map. now rewrite app_nil_r.
    + cbn [filter is_core]. now rewrite filter_core_map.
  - rewrite H. destruct run as [t r]. cbn [snd] in H0. subst r. reflexivity.
  - rewrite H. destruct run as [t r]. cbn [snd] in H0. subst r. cbn [fst].
    cbn [filter is_drawing]. apply filter_drawing_map.
Qed.

(** X19.  When [plot_feature_importance] returns, it has drawn one bar
    chart, on the axes it returns: the caller's axes when some were
    given (no figure is created then), the axes of a new figure
    otherwise.  The bars are the entries feature_importance returned,
    all of them, in the order asked for by [ascending]. *)
Theorem plot_draws_the_importances :
  forall (f : figure) (ax' : axes),
    let chart := plot_feature_importance self pyplot COLORS model
                   filter_classes ascending ax progressbar n_jobs n_samples
                   method use_scaling in
    let run := feature_importance self model true filter_classes n_jobs
                 progressbar n_samples method "default" use_scaling in
    snd chart = Plotted (f, ax') ->
    exists importances color bars,
      snd run = Ok importances
      /\ first_color COLORS = Plotted color
      /\ Permutation bars importances
      /\ (Forall (fun kv => is_finite (snd kv)) importances ->
          StronglySorted (in_order ascending) bars)
      /\ match ax with
         | Some a =>
             ax' = a /\ f = figure_of pyplot a
             /\ filter is_drawing (fst chart) = [EvBarh a color bars]
         | None =>
             subplots pyplot 1 = Ok (f, ax')
             /\ filter is_drawing (fst chart)
                = [EvSubplots 1; EvBarh ax' color bars]
         end.
Proof.
  intros f ax' chart run. unfold chart, plot_feature_importance. fold run.
  destruct (import_pyplot pyplot); try discriminate.
  destruct run as [t [importances|e]]; [|discriminate].
  assert (Hs : Permutation (sort_values ascending importances) importances
               /\ (Forall (fun kv => is_finite (snd kv)) importances ->
                   StronglySorted (in_order ascending)
                     (sort_values ascending importances))).
  { split; [apply sort_values_perm|apply sort_values_sorted]. }
  destruct Hs as [Hperm Hsorted].
  destruct ax as [a|].
  - destruct (first_color COLORS) as [color|e0] eqn:Ec; [|discriminate].
    destruct (plot_barh pyplot a color _); [|discriminate].
    cbn [fst snd]. intros H. inversion H; subst.
    exists importances, color, (sort_values ascending importances).
    repeat split; auto.
    rewrite filter_app. cbn [filter is_drawing].
    now rewrite filter_drawing_map.
  - destruct (subplots pyplot 1) as [[f0 a0]|e0]; [|discriminate].
    destruct (first_color COLORS) as [color|e0] eqn:Ec; [|discriminate].
    destruct (plot_barh pyplot a0 color _); [|discriminate].
    cbn [fst snd]. intros H. inversion H; subst.
    exists importances, color, (sort_values ascending importances).
    repeat split; auto.
    rewrite !filter_app. cbn [filter is_drawing].
    now rewrite filter_drawing_map.
Qed.

End BarChart.

Section BarChartExamples.

(** Without matplotlib nothing is computed; with it, an unknown method
    fails in feature_importance and nothing is drawn. *)
Lemma plot_computes_before_drawing_witness :
  (exists msg,
      plot_feature_importance (Example.interp Example.healthy_pool)
        {| import_pyplot := ImportError;
           subplots := fun _ => Ok (7%nat, 8%nat);
           figure_of := fun a => a;
           plot_barh := fun _ _ _ => Ok tt |}
        ["blue"] Example.model None false None false 1 5000
        "output-variance" false
      = ([EvImportPyplot], PlotRaise (MatplotlibUnavailableError msg)))
  /\ filter is_drawing
       (fst (plot_feature_importance (Example.interp Example.healthy_pool)
               {| import_pyplot := Imported;
                  subplots := fun _ => Ok (7%nat, 8%nat);
                  figure_of := fun a => a;
                  plot_barh := fun _ _ _ => Ok tt |}
               ["blue"] Example.model None false None false 1 5000
               "gini" false))
     = [].
Proof.
  split.
  - apply (proj1 (plot_computes_before_drawing
                    (Example.interp Example.healthy_pool)
                    {| import_pyplot := ImportError;
                       subplots := fun _ => Ok (7%nat, 8%nat);
                       figure_of := fun a => a;
                       plot_barh := fun _ _ _ => Ok tt |}
                    ["blue"] Example.model None false None false 1 5000
                    "output-variance" false)).
    reflexivity.
  - destruct (plot_computes_before_drawing
                (Example.interp Example.healthy_pool)
                {| import_pyplot := Imported;
                   subplots := fun _ => Ok (7%nat, 8%nat);
                   figure_of := fun a => a;
                   plot_barh := fun _ _ _ => Ok tt |}
                ["blue"] Example.model None false None false 1 5000
                "gini" false) as (_ & _ & _ & H).
    apply (H (KeyError
                "Unrecongized method for computing feature_importance: gini"));
      reflexivity.
Defined.

(** A new figure, the first colour, the bars in descending order. *)
Lemma plot_draws_the_importances_witness :
  exists importances color bars,
    snd (feature_importance (Example.interp Example.healthy_pool)
           Example.model true None 1 false 5000 "output-variance" "default"
           false) = Ok importances
    /\ first_color ["blue"; "red"] = Plotted color
    /\ Permutation bars importances
    /\ (Forall (fun kv => is_finite (snd kv)) importances ->
        StronglySorted (in_order false) bars)
    /\ subplots
         {| import_pyplot := Imported;
            subplots := fun _ => Ok (7%nat, 8%nat);
            figure_of := fun a => a;
            plot_barh := fun _ _ _ => Ok tt |} 1 = Ok (7%nat, 8%nat)
    /\ filter is_drawing
         (fst (plot_feature_importance (Example.interp Example.healthy_pool)
                 {| import_pyplot := Imported;
                    subplots := fun _ => Ok (7%nat, 8%nat);
                    figure_of := fun a => a;
                    plot_barh := fun _ _ _ => Ok tt |}
                 ["blue"; "red"] Example.model None false None false 1 5000
                 "output-variance" false))
       = [EvSubplots 1; EvBarh 8%nat color bars].
Proof.
  apply (@plot_draws_the_importances
           (Example.interp Example.healthy_pool)
           {| import_pyplot := Imported;
              subplots := fun _ => Ok (7%nat, 8%nat);
              figure_of := fun a => a;
              plot_barh := fun _ _ _ => Ok tt |}
           ["blue"; "red"] Example.model None false None false 1 5000
           "output-variance" false 7%nat 8%nat).
  vm_compute. reflexivity.
Defined.

End BarChartExamples.

(* ================================================================== *)
(** * The fallback warning *)
(* ================================================================== *)

Section FallbackWarning.

Lemma prelude_no_fallback_warning (self : Interpretation) (model : Model)
  (fc : option (list string)) (n_jobs : Z) (pb : bool) (n_samples : Z)
  (method : string) (inputs : Data) (preds : ndarray)
  (labels : option ndarray) :
  snd (prelude self model fc n_jobs pb n_samples method)
    = Ok (inputs, preds, labels) ->
  filter is_fallback_warning
    (fst (prelude self model fc n_jobs pb n_samples method)) = [].
Proof.
  intros Hp.
  destruct (prelude_inv self model fc n_jobs pb n_samples method Hp)
    as (_ & _ & _ & _ & _ & Htr).
  rewrite Htr, !filter_app.
  destruct (choose_inputs_cases self n_samples) as [[_ E]|[_ E]]; rewrite E;
    destruct pb; reflexivity.
Qed.

Lemma attempt_no_fallback_warning (self : Interpretation) (n_jobs : option Z)
  (pb : bool) (f : fid -> result dict) (args : list fid) :
  filter is_fallback_warning (fst (parallel_attempt self n_jobs pb f args))
  = [].
Proof.
  apply filter_none. unfold parallel_attempt.
  destruct (option_Z_eqb n_jobs 1); [constructor|].
  apply bind_Forall; [repeat constructor|]. intros _.
  eapply Forall_impl; [|apply consume_only_animate]. now intros ev ->.
Qed.

Lemma rerun_fallback_warning (pb : bool) (f : fid -> result dict)
  (args : list fid) :
  filter is_fallback_warning (fst (sequential_rerun pb f args))
  = [EvWarn "Multiprocessing failed, going single process"].
Proof.
  unfold sequential_rerun. rewrite fst_bind. cbn [emit fst snd app].
  cbn [filter is_fallback_warning String.eqb Ascii.eqb Bool.eqb].
  f_equal. apply filter_none.
  eapply Forall_impl; [|apply run_local_only].
  intros ev [H| ->]; [now destruct ev|reflexivity].
Qed.

(** X20.  The warning "Multiprocessing failed, going single process" is
    logged exactly when the attempt on the pool did not deliver: not at
    all when the pool delivers every result (and then no task is run in
    the current process), once when the attempt fails, and also once
    whenever [n_jobs] is 1, although no pool has failed then. *)
Theorem fallback_warning_logged :
  forall (self : Interpretation) (model : Model) (ascending : bool)
         (filter_classes : option (list string)) (n_jobs : Z)
         (progressbar : bool) (n_samples : Z) (method scorer : string)
         (use_scaling : bool) (inputs : Data) (preds : ndarray)
         (labels : option ndarray),
    let task := fi_func self model inputs preds labels method use_scaling in
    let ids := feature_ids (data_set self) in
    let attempt := parallel_attempt self (resolve_n_jobs n_jobs) progressbar
                     task ids in
    let run := feature_importance self model ascending filter_classes
                 n_jobs progressbar n_samples method scorer use_scaling in
    snd (prelude self model filter_classes n_jobs progressbar n_samples method)
      = Ok (inputs, preds, labels) ->
    (forall ds, snd attempt = Ok ds ->
                filter is_fallback_warning (fst run) = []
                /\ filter is_local_task (fst run) = [])
    /\ (forall e, snd attempt = Raise e ->
                  filter is_fallback_warning (fst run)
                  = [EvWarn "Multiprocessing failed, going single process"])
    /\ (n_jobs = 1%Z ->
        filter is_fallback_warning (fst run)
        = [EvWarn "Multiprocessing failed, going single process"]).
Proof.
  intros self model asc fc n_jobs pb n_samples method scorer scaling
         inputs preds labels task ids attempt run Hp.
  assert (Hrun : forall P,
             (forall ev, finish_event ev = true -> P ev = false) ->
             filter P (fst run)
             = filter P (fst (prelude self model fc n_jobs pb n_samples
                                method))
               ++ filter P (fst (dispatch self (resolve_n_jobs n_jobs) pb
                                   task ids))).
  { intros P HP. unfold run, feature_importance. rewrite fst_bind.
    rewrite (raw_after_prelude self model fc n_jobs pb n_samples method
               scaling Hp).
    fold task. fold ids. cbn [fst snd]. rewrite !filter_app.
    destruct (snd (dispatch _ _ _ _ _)) as [ds|e].
    - rewrite filter_finish by exact HP. now rewrite app_nil_r.
    - now rewrite app_nil_r. }
  assert (Hfail : forall e, snd attempt = Raise e ->
            filter is_fallback_warning (fst run)
            = [EvWarn "Multiprocessing failed, going single process"]).
  { intros e He. rewrite Hrun by (now intros []).
    rewrite (prelude_no_fallback_warning self model fc n_jobs pb n_samples
               method Hp).
    rewrite dispatch_cases. fold attempt. rewrite He. cbn [fst app].
    rewrite !filter_app. unfold attempt.
    rewrite attempt_no_fallback_warning, rerun_fallback_warning.
    reflexivity. }
  split; [|split].
  - intros ds Hd. split.
    + rewrite Hrun by (now intros []).
      rewrite (prelude_no_fallback_warning self model fc n_jobs pb n_samples
                 method Hp).
      rewrite dispatch_cases. fold attempt. rewrite Hd. cbn [fst app].
      rewrite filter_app. unfold attempt.
      now rewrite attempt_no_fallback_warning.
    + rewrite Hrun by (now intros []).
      rewrite filter_local_prelude.
      rewrite dispatch_cases. fold attempt. rewrite Hd. cbn [fst app].
      rewrite filter_app. unfold attempt.
      now rewrite (filter_none is_local_task
                     (parallel_attempt_no_local_task self
                        (resolve_n_jobs n_jobs) pb task ids)).
  - exact Hfail.
  - intros ->. apply (Hfail (ValueError "Skipping to single processing")).
    reflexivity.
Qed.

Lemma fallback_warning_logged_witness :
  filter is_fallback_warning
    (fst (feature_importance (Example.interp Example.healthy_pool)
            Example.model true None 1 false 5000 "output-variance" "default"
            false))
  = [EvWarn "Multiprocessing failed, going single process"]
  /\ filter is_fallback_warning
       (fst (feature_importance (Example.interp Example.healthy_pool)
               Example.model true None 4 false 5000 "output-variance"
               "default" false))
     = [].
Proof.
  split.
  - destruct (@fallback_warning_logged (Example.interp Example.healthy_pool)
                Example.model true None 1 false 5000 "output-variance"
                "default" false Example.rows Example.baseline_predictions
                None eq_refl) as (_ & _ & H).
    now apply H.
  - destruct (@fallback_warning_logged (Example.interp Example.healthy_pool)
                Example.model true None 4 false 5000 "output-variance"
                "default" false Example.rows Example.baseline_predictions
                None eq_refl) as (H & _ & _).
    destruct (snd (parallel_attempt (Example.interp Example.healthy_pool)
                     (resolve_n_jobs 4) false
                     (fi_func (Example.interp Example.healthy_pool)
                        Example.model Example.rows
                        Example.baseline_predictions None "output-variance"
                        false)
                     (feature_ids (data_set
                        (Example.interp Example.healthy_pool)))))
      as [ds|e] eqn:E.
    + exact (proj1 (H ds eq_refl)).
    + vm_compute in E. discriminate.
Defined.

End FallbackWarning.
